(** * genny: the [parse] package (src/parse/parse.go)

    A shallow embedding of the template specialiser: the literal rule
    ([subIntoLiteral], [wordify], [isExported]), the line substituter
    ([subTypeIntoComment], [subTypeIntoLine]), the per-set generator
    ([generateSpecific]), the merger and clean-up loop of [Generics],
    and the package renamer ([changePackage]).

    Go strings are byte sequences: they are modelled as [string]
    (a list of 8-bit [ascii] characters).  A Go run-time panic is an
    explicit outcome of the functions that can raise one. *)

From Stdlib Require Import Strings.String Strings.Ascii.
From Stdlib Require Import Lists.List Bool.Bool Arith.Arith Arith.PeanoNat.
From Stdlib Require Import NArith.NArith ZArith.ZArith.
From Stdlib Require Import Sorting.Permutation micromega.Lia.
Import ListNotations.

Open Scope list_scope.
Open Scope string_scope.
Open Scope bool_scope.
Open Scope nat_scope.

(* ================================================================= *)
(** ** Outcomes: a value, or a run-time panic *)

Inductive outcome (A : Type) : Type :=
| Ret (a : A)
| Panic.
Arguments Ret {A} a.
Arguments Panic {A}.

Definition bind {A B : Type} (m : outcome A) (k : A -> outcome B) : outcome B :=
  match m with
  | Ret a => k a
  | Panic => Panic
  end.

Notation "x <- m ;; k" := (bind m (fun x => k))
  (at level 61, m at next level, right associativity).

(* ================================================================= *)
(** ** Bytes and UTF-8 (packages [unicode/utf8] and [unicode]) *)

Module GoBytes.

Definition code (c : ascii) : nat := nat_of_ascii c.

Definition between (lo hi : nat) (c : ascii) : bool :=
  (lo <=? code c) && (code c <=? hi).

(** A UTF-8 continuation byte, 0x80..0xBF. *)
Definition isCont (c : ascii) : bool := between 128 191 c.

(** [utf8.DecodeRuneInString]: the width in bytes of the first rune of
    a non-empty string.  An invalid or truncated sequence decodes to
    [RuneError] with width 1. *)
Definition runeWidth (s : string) : nat :=
  match s with
  | EmptyString => 0
  | String c0 r =>
    let b0 := code c0 in
    if b0 <? 194 then 1                      (* ASCII, or invalid lead *)
    else if b0 <? 224 then                   (* 0xC2..0xDF: two bytes *)
      match r with
      | String c1 _ => if isCont c1 then 2 else 1
      | _ => 1
      end
    else if b0 <? 240 then                   (* 0xE0..0xEF: three bytes *)
      match r with
      | String c1 (String c2 _) =>
        let lo := if b0 =? 224 then 160 else 128 in
        let hi := if b0 =? 237 then 159 else 191 in
        if between lo hi c1 && isCont c2 then 3 else 1
      | _ => 1
      end
    else if b0 <? 245 then                   (* 0xF0..0xF4: four bytes *)
      match r with
      | String c1 (String c2 (String c3 _)) =>
        let lo := if b0 =? 240 then 144 else 128 in
        let hi := if b0 =? 244 then 143 else 191 in
        if between lo hi c1 && isCont c2 && isCont c3 then 4 else 1
      | _ => 1
      end
    else 1
  end.

(** [unicode.IsSpace] on the first rune of [s], whose width is
    [runeWidth s]: the ASCII white space, U+0085, U+00A0 and the
    White_Space code points above Latin-1 (U+1680, U+2000..U+200A,
    U+2028, U+2029, U+202F, U+205F, U+3000). *)
Definition firstRuneIsSpace (s : string) : bool :=
  match s with
  | EmptyString => false
  | String c0 r =>
    let b0 := code c0 in
    if b0 <? 128 then between 9 13 c0 || (b0 =? 32)
    else match runeWidth s, r with
         | 2, String c1 _ =>
           (b0 =? 194) && ((code c1 =? 133) || (code c1 =? 160))
         | 3, String c1 (String c2 _) =>
           let b1 := code c1 in
           let b2 := code c2 in
           ((b0 =? 225) && (b1 =? 154) && (b2 =? 128))
           || ((b0 =? 226) && (b1 =? 128)
               && (between 128 138 c2 || (b2 =? 168) || (b2 =? 169) || (b2 =? 175)))
           || ((b0 =? 226) && (b1 =? 129) && (b2 =? 159))
           || ((b0 =? 227) && (b1 =? 128) && (b2 =? 128))
         | _, _ => false
         end
  end.

(** [unicode.IsUpper(rune(b))] for a byte [b] read as the code point
    U+0000..U+00FF: the ASCII capitals and the Latin-1 capitals
    U+00C0..U+00DE without the multiplication sign U+00D7. *)
Definition isUpperByte (c : ascii) : bool :=
  between 65 90 c || (between 192 222 c && negb (code c =? 215)).

(** [strings.ToUpper(string(b))] for a byte [b]: the conversion
    [string(b)] is the UTF-8 encoding of the code point [b], so a byte
    above 0x7F becomes a two-byte string before it is upper-cased. *)
Definition upperOfByte (c : ascii) : string :=
  let b := code c in
  let one (n : nat) := String (ascii_of_nat n) EmptyString in
  let two (m n : nat) := String (ascii_of_nat m) (one n) in
  if b <? 128 then (if between 97 122 c then one (b - 32) else one b)
  else if b =? 181 then two 206 156                       (* U+00B5 -> U+039C *)
  else if b =? 255 then two 197 184                       (* U+00FF -> U+0178 *)
  else if between 224 254 c && negb (b =? 247) then two 195 (b - 96)
  else if b <? 192 then two 194 b
  else two 195 (b - 64).

End GoBytes.

(* ================================================================= *)
(** ** The functions of package [strings] (and [bufio]) the code calls

    Each function follows the documented behaviour of the Go standard
    library on byte strings. *)

Module GoStrings.
Import GoBytes.

Definition byte (c : ascii) : string := String c EmptyString.

(** [s[n:]] *)
Fixpoint drop (n : nat) (s : string) : string :=
  match n, s with
  | S k, String _ s' => drop k s'
  | _, _ => s
  end.

(** [strings.HasPrefix(s, p)] *)
Definition HasPrefix (s p : string) : bool := String.prefix p s.

(** [strings.HasSuffix(s, suf)] *)
Definition HasSuffix (s suf : string) : bool :=
  (String.length suf <=? String.length s)
  && String.eqb (drop (String.length s - String.length suf) s) suf.

(** [strings.Contains(s, sub)] *)
Fixpoint Contains (s sub : string) : bool :=
  HasPrefix s sub
  || match s with
     | EmptyString => false
     | String _ s' => Contains s' sub
     end.

(** The replacement count of [strings.Replace]: a negative [n] puts no
    limit on the number of replacements. *)
Definition limit (n : Z) : option nat :=
  if (n <? 0)%Z then None else Some (Z.to_nat n).

Definition more (lim : option nat) : bool :=
  match lim with
  | Some 0 => false
  | _ => true
  end.

Definition less (lim : option nat) : option nat :=
  match lim with
  | Some k => Some (pred k)
  | None => None
  end.

(** Replacement of a non-empty [old], left to right and without
    overlap.  [skip] counts the bytes of a matched [old] still to be
    passed over. *)
Fixpoint replaceOld (old new s : string) (skip : nat) (lim : option nat) : string :=
  match s with
  | EmptyString => EmptyString
  | String c s' =>
    match skip with
    | S k => replaceOld old new s' k lim
    | 0 =>
      if more lim && HasPrefix s old
      then new ++ replaceOld old new s' (String.length old - 1) (less lim)
      else String c (replaceOld old new s' 0 lim)
    end
  end.

(** Replacement of the empty string: [new] goes after each UTF-8
    sequence.  [rem] counts the bytes of the current rune, this one
    included. *)
Fixpoint replaceAfterRunes (new s : string) (rem : nat) (lim : option nat) : string :=
  match s with
  | EmptyString => EmptyString
  | String c s' =>
    match rem with
    | S (S k) => String c (replaceAfterRunes new s' (S k) lim)
    | _ =>
      if more lim
      then String c (new ++ replaceAfterRunes new s' (runeWidth s') (less lim))
      else s
    end
  end.

(** [strings.Replace(s, old, new, n)].  An empty [old] matches at the
    beginning of the string and after each UTF-8 sequence. *)
Definition Replace (s old new : string) (n : Z) : string :=
  if String.eqb old new || (n =? 0)%Z then s
  else match old with
       | EmptyString =>
         new ++ replaceAfterRunes new s (runeWidth s) (less (limit n))
       | _ => replaceOld old new s 0 (limit n)
       end.

Fixpoint inSet (cutset : string) (c : ascii) : bool :=
  match cutset with
  | EmptyString => false
  | String d r => Ascii.eqb c d || inSet r c
  end.

(** [strings.TrimRight(s, cutset)] for a cutset of ASCII characters. *)
Fixpoint TrimRight (s cutset : string) : string :=
  match s with
  | EmptyString => EmptyString
  | String c s' =>
    match TrimRight s' cutset with
    | EmptyString => if inSet cutset c then EmptyString else byte c
    | t => String c t
    end
  end.

(** [strings.TrimLeft(s, cutset)] for a cutset of ASCII characters. *)
Fixpoint TrimLeft (s cutset : string) : string :=
  match s with
  | EmptyString => EmptyString
  | String c s' => if inSet cutset c then TrimLeft s' cutset else s
  end.

(** [strings.Join(parts, sep)] *)
Fixpoint Join (parts : list string) (sep : string) : string :=
  match parts with
  | [] => EmptyString
  | [p] => p
  | p :: rest => p ++ sep ++ Join rest sep
  end.

Fixpoint splitAt (sep : ascii) (s cur : string) : list string :=
  match s with
  | EmptyString => [cur]
  | String c s' =>
    if Ascii.eqb c sep then cur :: splitAt sep s' EmptyString
    else splitAt sep s' (cur ++ byte c)
  end.

(** [strings.Split(s, sep)] for a separator of one byte, the only kind
    the package passes. *)
Definition Split (s : string) (sep : ascii) : list string :=
  splitAt sep s EmptyString.

Definition flush (cur : string) (rest : list string) : list string :=
  match cur with
  | EmptyString => rest
  | _ => cur :: rest
  end.

Fixpoint fieldsFrom (s : string) (rem : nat) (sp : bool) (cur : string) : list string :=
  match s with
  | EmptyString => flush cur []
  | String c s' =>
    match rem with
    | S k => if sp then fieldsFrom s' k sp cur else fieldsFrom s' k sp (cur ++ byte c)
    | 0 =>
      if firstRuneIsSpace s
      then flush cur (fieldsFrom s' (runeWidth s - 1) true EmptyString)
      else fieldsFrom s' (runeWidth s - 1) false (cur ++ byte c)
    end
  end.

(** [strings.Fields(s)]: the maximal runs of runes that are not white
    space in the sense of [unicode.IsSpace]. *)
Definition Fields (s : string) : list string := fieldsFrom s 0 false EmptyString.

(** [dropCR] of package [bufio]: one trailing carriage return goes. *)
Fixpoint dropCR (s : string) : string :=
  match s with
  | EmptyString => EmptyString
  | String c EmptyString => if Ascii.eqb c "013" then EmptyString else s
  | String c s' => String c (dropCR s')
  end.

(** [bufio.MaxScanTokenSize]: the size of the scanner's buffer. *)
Definition maxScanTokenSize : N := 65536.

(** A line, as it stands before its line feed, fits the buffer together
    with the line feed, or without it at the end of the input. *)
Definition fits (cur : string) : bool :=
  (N.of_nat (String.length cur) <? maxScanTokenSize)%N.

(** The next token [cur] and the tokens after it, or the end of the
    scan: for a line that does not fit, [Scan] returns false with
    [ErrTooLong], and the code, which never reads [Err], takes this for
    the end of the input. *)
Definition token (cur : string) (rest : list string) : list string :=
  if fits cur then dropCR cur :: rest else [].

Fixpoint linesFrom (s cur : string) : list string :=
  match s with
  | EmptyString =>
    match cur with
    | EmptyString => []
    | _ => token cur []
    end
  | String c s' =>
    if Ascii.eqb c "010" then token cur (linesFrom s' EmptyString)
    else linesFrom s' (cur ++ byte c)
  end.

(** The tokens of a [bufio.Scanner] with the default split function
    [bufio.ScanLines], as a loop [for scanner.Scan()] sees them: the
    lines of the input without their end-of-line marker, up to the
    first line of 65536 bytes or more; a last line without a newline
    counts when it is not empty. *)
Definition scanLines (s : string) : list string := linesFrom s EmptyString.

(** [fmt.Sprintln(s)] for one string operand. *)
Definition Sprintln (s : string) : string := s ++ byte "010".

End GoStrings.

Import GoBytes GoStrings.

(* ================================================================= *)
(** ** Package-level variables (parse.go, lines 19-39) *)

Definition LF : string := byte "010".

Definition header : string :=
  LF ++ LF
  ++ "// This file was automatically generated by genny." ++ LF
  ++ "// Any changes will be lost if this file is regenerated." ++ LF
  ++ "// see https://github.com/cheekybits/genny" ++ LF
  ++ LF.

Definition packageKeyword : string := "package".
Definition importKeyword : string := "import".
Definition openBrace : string := "(".
Definition closeBrace : string := ")".
Definition genericPackage : string := "generic".
Definition genericType : string := "generic.Type".
Definition genericNumber : string := "generic.Number".
Definition linefeed : string := byte "013" ++ byte "010".
Definition unwantedLinePrefixes : list string := ["//go:generate genny "].

(* ================================================================= *)
(** ** The literal rule *)

(** [isExported] (lines 293-298). *)
Definition isExported (lit : string) : bool :=
  match lit with
  | EmptyString => false
  | String c _ => isUpperByte c
  end.

(** [wordify] (lines 263-271).  Indexing the stripped string at 0
    panics when nothing is left of it. *)
Definition wordify (s : string) (exported : bool) : outcome string :=
  let s := TrimRight s "{}" in
  let s := TrimLeft s "*&" in
  let s := Replace s "." "" (-1) in
  if negb exported then Ret s
  else match s with
       | EmptyString => Panic
       | String c0 rest => Ret (upperOfByte c0 ++ rest)
       end.

(** [subIntoLiteral] (lines 41-55). *)
Definition subIntoLiteral (lit typeTemplate specificType : string) : outcome string :=
  if String.eqb lit typeTemplate then Ret specificType
  else if negb (Contains lit typeTemplate) then Ret lit
  else
    specificLg <- wordify specificType true ;;
    specificSm <- wordify specificType false ;;
    let result := Replace lit typeTemplate specificLg (-1) in
    if HasPrefix result specificLg && negb (isExported lit)
    then Ret (Replace result specificLg specificSm 1)
    else Ret result.

(** [subTypeIntoComment] (lines 57-63). *)
Fixpoint subTypeIntoWords (ws : list string) (typeTemplate specificType subbed : string)
  : outcome string :=
  match ws with
  | [] => Ret subbed
  | w :: rest =>
    w' <- subIntoLiteral w typeTemplate specificType ;;
    subTypeIntoWords rest typeTemplate specificType (subbed ++ w' ++ " ")
  end.

Definition subTypeIntoComment (line typeTemplate specificType : string) : outcome string :=
  subTypeIntoWords (Fields line) typeTemplate specificType "".

(** [makeLine] (lines 252-254). *)
Definition makeLine (s : string) : string := Sprintln (TrimRight s linefeed).

(** The test at line 139: the line refers to [generic.Type] or
    [generic.Number]. *)
Definition mentionsGeneric (line : string) : bool :=
  Contains line genericType || Contains line genericNumber.

(* ================================================================= *)
(** ** Tokens (package [go/token]) and the syntax tree ([go/ast]) *)

Module GoToken.

(** The token classes [subTypeIntoLine] tells apart.  An operator,
    delimiter or keyword carries the text [Token.String] returns for
    it; the end-of-file token is the end of the token list. *)
Inductive Token : Type :=
| ILLEGAL | COMMENT
| IDENT | INT | FLOAT | IMAG | CHAR | STRING
| Operator (text : string)
| Keyword (text : string).

(** [Token.IsLiteral] *)
Definition IsLiteral (tok : Token) : bool :=
  match tok with
  | IDENT | INT | FLOAT | IMAG | CHAR | STRING => true
  | _ => false
  end.

(** [Token.String] *)
Definition String_ (tok : Token) : string :=
  match tok with
  | ILLEGAL => "ILLEGAL" | COMMENT => "COMMENT"
  | IDENT => "IDENT" | INT => "INT" | FLOAT => "FLOAT"
  | IMAG => "IMAG" | CHAR => "CHAR" | STRING => "STRING"
  | Operator text => text
  | Keyword text => text
  end.

Definition SEMICOLON : Token := Operator ";".

End GoToken.

Module GoAst.

(** The part of a parsed file the coverage check walks. *)
Inductive Expr : Type :=
| Ident (Name : string)
| SelectorExpr (X : Expr) (Sel : string)
| OtherExpr.

Inductive Spec : Type :=
| TypeSpec (Name : string) (Type_ : Expr)
| OtherSpec.

Inductive Decl : Type :=
| GenDecl (Specs : list Spec)
| OtherDecl.

Record File : Type := { Decls : list Decl }.

End GoAst.

Import GoToken GoAst.

(** The errors of the package (errors.go is not among the sources; the
    three error types are named after their uses in parse.go). *)
Inductive error : Type :=
| errSource (Err : string)
| errMissingSpecificType (GenericType : string)
| errImports (Err : string).

(** What a function with results [([]byte, error)] returns. *)
Inductive result : Type :=
| Bytes (b : string)
| Fail (err : error).

(** A substitution set, [map[string]string], as a list of its entries;
    the keys of a map are distinct.  The list fixes no visiting order:
    see [visit]. *)
Definition TypeSet : Type := list (string * string).

Definition keys (typeSet : TypeSet) : list string := map fst typeSet.

(** [_, ok := typeSet[name]] *)
Definition hasKey (typeSet : TypeSet) (name : string) : bool :=
  existsb (String.eqb name) (keys typeSet).

(** [for t, specificType := range typeSet]: Go fixes no order for the
    entries of a map and chooses one anew each time the loop is
    entered.  The choice is a parameter of the model: [rank] numbers
    the keys, and the loop visits the entries by increasing number,
    entries of equal number as they are listed.  With distinct keys,
    every order of the entries is the visiting order of some [rank]. *)
Fixpoint insertEntry (rank : string -> nat) (entry : string * string)
  (visited : TypeSet) : TypeSet :=
  match visited with
  | [] => [entry]
  | next :: rest =>
    if rank (fst entry) <=? rank (fst next) then entry :: visited
    else next :: insertEntry rank entry rest
  end.

Definition visit (rank : string -> nat) (typeSet : TypeSet) : TypeSet :=
  fold_right (insertEntry rank) [] typeSet.

(* ================================================================= *)
(** ** The clean-up loop and the package renamer

    These two do not use the external collaborators. *)

(** Lines 218-231: a line with an unwanted prefix is skipped, any
    other is appended to [cleanOutputLines]. *)
Definition keepLine (line : string) : option string :=
  let skipline := existsb (HasPrefix line) unwantedLinePrefixes in
  if skipline then None else Some (makeLine line).

(** One iteration of the loop at lines 195-232: the state is
    [(packageFound, insideImportBlock)], the result the next state and
    the line appended to [cleanOutputLines], if any. *)
Definition cleanStep (st : bool * bool) (line : string)
  : (bool * bool) * option string :=
  let '(packageFound, insideImportBlock) := st in
  if insideImportBlock then
    if HasSuffix line closeBrace then ((packageFound, false), None)
    else ((packageFound, true), None)
  else if HasPrefix line packageKeyword then
    if packageFound then ((packageFound, false), None)
    else ((true, false), keepLine line)
  else if HasPrefix line importKeyword then
    if HasSuffix line openBrace then ((packageFound, true), None)
    else ((packageFound, false), None)
  else ((packageFound, false), keepLine line).

Fixpoint cleanLoop (st : bool * bool) (lines : list string) : list string :=
  match lines with
  | [] => []
  | line :: rest =>
    let '(st', kept) := cleanStep st line in
    match kept with
    | Some l => l :: cleanLoop st' rest
    | None => cleanLoop st' rest
    end
  end.

(** [cleanOutputLines] and [cleanOutput] (lines 190-234) for a given
    [totalOutput]. *)
Definition cleanOutputLines (totalOutput : string) : list string :=
  cleanLoop (false, false) (scanLines totalOutput).

Definition cleanOutput (totalOutput : string) : string :=
  Join (cleanOutputLines totalOutput) "".

(** [changePackage] (lines 273-291).  [parts[1] = pkgName] panics when
    the split has a single part. *)
Fixpoint changePackageLoop (lines : list string) (pkgName : string) (done : bool)
  (out : string) : outcome string :=
  match lines with
  | [] => Ret out
  | s :: rest =>
    if negb done && HasPrefix s "package" then
      match Split s " " with
      | p0 :: _ :: more =>
        changePackageLoop rest pkgName true
          (out ++ Sprintln (Join (p0 :: pkgName :: more) " "))
      | _ => Panic
      end
    else changePackageLoop rest pkgName done (out ++ Sprintln s)
  end.

Definition changePackage (r pkgName : string) : outcome string :=
  changePackageLoop (scanLines r) pkgName false "".

(* ================================================================= *)
(** ** The generator, over its external collaborators *)

Section Generator.

(** [go/scanner] with mode [ScanComments]: the pairs [(tok, lit)] that
    successive calls of [Scan] return for a source text, up to the
    end-of-file token. *)
Variable scan : string -> list (Token * string).

(** [parser.ParseFile(fs, filename, in, 0)]: a diagnostic or the file. *)
Variable ParseFile : string -> string -> string + File.

(** [imports.Process(outputFilename, output, nil)]. *)
Variable Process : string -> string -> string + string.

(** The loop of [subTypeIntoLine] (lines 74-87). *)
Fixpoint subTypeIntoTokens (toks : list (Token * string))
  (typeTemplate specificType output : string) : outcome string :=
  match toks with
  | [] => Ret output
  | (tok, lit) :: rest =>
    match tok with
    | COMMENT =>
      subbed <- subTypeIntoComment lit typeTemplate specificType ;;
      subTypeIntoTokens rest typeTemplate specificType (output ++ subbed ++ " ")
    | _ =>
      if IsLiteral tok then
        subbed <- subIntoLiteral lit typeTemplate specificType ;;
        subTypeIntoTokens rest typeTemplate specificType (output ++ subbed ++ " ")
      else
        subTypeIntoTokens rest typeTemplate specificType
          (output ++ String_ tok ++ " ")
    end
  end.

(** [subTypeIntoLine] (lines 67-89). *)
Definition subTypeIntoLine (line typeTemplate specificType : string) : outcome string :=
  subTypeIntoTokens (scan line) typeTemplate specificType "".

(** The coverage check (lines 106-126): the name of the first type
    specification on [generic.<member>] that is no key of [typeSet]. *)
Fixpoint missingInSpecs (specs : list Spec) (typeSet : TypeSet) : option string :=
  match specs with
  | [] => None
  | TypeSpec name (SelectorExpr (Ident x) _) :: rest =>
    if String.eqb x genericPackage && negb (hasKey typeSet name)
    then Some name
    else missingInSpecs rest typeSet
  | _ :: rest => missingInSpecs rest typeSet
  end.

Fixpoint missingInDecls (decls : list Decl) (typeSet : TypeSet) : option string :=
  match decls with
  | [] => None
  | GenDecl specs :: rest =>
    match missingInSpecs specs typeSet with
    | Some name => Some name
    | None => missingInDecls rest typeSet
    end
  | OtherDecl :: rest => missingInDecls rest typeSet
  end.

(** The [range typeSet] loop (lines 144-149) on one line, for the
    entries in the order they are visited. *)
Fixpoint subTypeSet (typeSet : TypeSet) (line : string) : outcome string :=
  match typeSet with
  | [] => Ret line
  | (t, specificType) :: rest =>
    if Contains line t then
      newLine <- subTypeIntoLine line t specificType ;;
      subTypeSet rest newLine
    else subTypeSet rest line
  end.

(** The line loop (lines 134-166); [comment] is the pending comment,
    [buf] the output buffer, [n] the number of the line, and [rank n]
    the order in which the [range] loop of line [n] visits the set. *)
Fixpoint generateLines (rank : nat -> string -> nat) (lines : list string)
  (typeSet : TypeSet) (n : nat) (comment buf : string) : outcome string :=
  match lines with
  | [] => Ret buf
  | line :: rest =>
    if mentionsGeneric line then
      generateLines rank rest typeSet (S n) "" buf
    else
      line <- subTypeSet (visit (rank n) typeSet) line ;;
      let buf := if negb (String.eqb comment "") then buf ++ makeLine comment else buf in
      if HasPrefix line "//" then generateLines rank rest typeSet (S n) line buf
      else generateLines rank rest typeSet (S n) "" (buf ++ makeLine line)
  end.

(** [generateSpecific] (lines 92-170); [src] is the whole text behind
    the reader [in], read from its start, and [rank] the visiting
    orders of this call, line by line. *)
Definition generateSpecific (rank : nat -> string -> nat) (filename src : string)
  (typeSet : TypeSet) : outcome result :=
  match ParseFile filename src with
  | inl err => Ret (Fail (errSource err))
  | inr file =>
    match missingInDecls (Decls file) typeSet with
    | Some name => Ret (Fail (errMissingSpecificType name))
    | None =>
      buf <- generateLines rank (scanLines src) typeSet 0 "" "" ;;
      Ret (Bytes buf)
    end
  end.

(** The loop over the substitution sets (lines 178-188); [i] is the
    number of the set and [ranks i] the visiting orders of its call. *)
Fixpoint generateAll (ranks : nat -> nat -> string -> nat) (filename src : string)
  (typeSets : list TypeSet) (i : nat) (totalOutput : string) : outcome result :=
  match typeSets with
  | [] => Ret (Bytes totalOutput)
  | typeSet :: rest =>
    r <- generateSpecific (ranks i) filename src typeSet ;;
    match r with
    | Fail err => Ret (Fail err)
    | Bytes parsed => generateAll ranks filename src rest (S i) (totalOutput ++ parsed)
    end
  end.

(** The text handed to the package renamer: [cleanOutput] at line 234. *)
Definition merged (ranks : nat -> nat -> string -> nat) (filename src : string)
  (typeSets : list TypeSet) : outcome result :=
  r <- generateAll ranks filename src typeSets 0 header ;;
  match r with
  | Fail err => Ret (Fail err)
  | Bytes totalOutput => Ret (Bytes (cleanOutput totalOutput))
  end.

(** [Generics] (lines 174-250); [ranks] are the visiting orders the Go
    run time chooses during the call. *)
Definition Generics (ranks : nat -> nat -> string -> nat)
  (filename outputFilename pkgName src : string)
  (typeSets : list TypeSet) : outcome result :=
  r <- merged ranks filename src typeSets ;;
  match r with
  | Fail err => Ret (Fail err)
  | Bytes output =>
    output <- (if negb (String.eqb pkgName "") then changePackage output pkgName
               else Ret output) ;;
    match Process outputFilename output with
    | inl err => Ret (Fail (errImports err))
    | inr output => Ret (Bytes output)
    end
  end.

End Generator.

(* ================================================================= *)
(** ** A fragment of the Go scanner

    [go/scanner] is an external collaborator.  For concrete lines the
    development uses this model of it, which covers source text made of
    white space, ASCII identifiers and keywords, operators and
    delimiters, with the automatic semicolon of the Go lexical grammar,
    and [//] comments that no token precedes on their line.  Other
    comments, number, character and string literals, and bytes outside
    this alphabet are outside the fragment ([None]): there the token
    sequence depends on tables or on the version of the library. *)

Module GoScanner.

Definition isLetter (c : ascii) : bool :=
  between 97 122 c || between 65 90 c || (code c =? 95).

Definition isDigit (c : ascii) : bool := between 48 57 c.

(** [scanIdentifier]: the longest run of letters and digits. *)
Fixpoint scanIdentifier (s : string) : string * string :=
  match s with
  | EmptyString => (EmptyString, EmptyString)
  | String c r =>
    if isLetter c || isDigit c
    then let '(lit, rest) := scanIdentifier r in (String c lit, rest)
    else (EmptyString, s)
  end.

Definition keywords : list string :=
  [ "break"; "case"; "chan"; "const"; "continue"; "default"; "defer";
    "else"; "fallthrough"; "for"; "func"; "go"; "goto"; "if"; "import";
    "interface"; "map"; "package"; "range"; "return"; "select";
    "struct"; "switch"; "type"; "var" ].

(** [token.Lookup] *)
Definition Lookup (lit : string) : Token :=
  if existsb (String.eqb lit) keywords then Keyword lit else IDENT.

(** Operators and delimiters; of two that share a prefix the longer
    comes first, as in the scanner's [switch2], [switch3], [switch4]. *)
Definition operators : list string :=
  [ "..."; "."; ":="; ":"; ","; ";"; "("; ")"; "["; "]"; "{"; "}";
    "+="; "++"; "+"; "-="; "--"; "-"; "*="; "*"; "/="; "/"; "%="; "%";
    "^="; "^"; "<-"; "<<="; "<<"; "<="; "<"; ">>="; ">>"; ">="; ">";
    "=="; "="; "!="; "!"; "&^="; "&^"; "&&"; "&="; "&"; "||"; "|="; "|" ].

Definition scanOperator (s : string) : option string :=
  if HasPrefix s "//" || HasPrefix s "/*" then None
  else match s with
       | String "." (String d _) =>
         if isDigit d then None else find (HasPrefix s) operators
       | _ => find (HasPrefix s) operators
       end.

(** A [//] comment: its text up to the end of the line, and the input
    from the line feed on. *)
Fixpoint scanComment (s : string) : string * string :=
  match s with
  | EmptyString => (EmptyString, EmptyString)
  | String c r =>
    if Ascii.eqb c "010" then (EmptyString, s)
    else let '(lit, rest) := scanComment r in (String c lit, rest)
  end.

(** [stripCR]: the literal of a comment has no carriage return. *)
Fixpoint stripCR (s : string) : string :=
  match s with
  | EmptyString => EmptyString
  | String c r => if Ascii.eqb c "013" then stripCR r else String c (stripCR r)
  end.

(** The tokens after which a line end becomes a semicolon. *)
Definition semiAfter (tok : Token) : bool :=
  match tok with
  | IDENT => true
  | Keyword k => existsb (String.eqb k) ["break"; "continue"; "fallthrough"; "return"]
  | Operator o => existsb (String.eqb o) [")"; "]"; "}"; "++"; "--"]
  | _ => false
  end.

(** Successive calls of [Scan]; [insertSemi] is the scanner's field of
    that name. *)
Fixpoint scanFrom (fuel : nat) (s : string) (insertSemi : bool)
  : option (list (Token * string)) :=
  match fuel with
  | 0 => None
  | S fuel =>
    match s with
    | EmptyString =>
      if insertSemi then Some [(SEMICOLON, LF)] else Some []
    | String c r =>
      if Ascii.eqb c " " || Ascii.eqb c "009" || Ascii.eqb c "013" then
        scanFrom fuel r insertSemi
      else if Ascii.eqb c "010" then
        if insertSemi
        then option_map (cons (SEMICOLON, LF)) (scanFrom fuel r false)
        else scanFrom fuel r false
      else if HasPrefix s "//" then
        if insertSemi then None
        else
          let '(lit, rest) := scanComment s in
          option_map (cons (COMMENT, stripCR lit)) (scanFrom fuel rest false)
      else if isLetter c then
        let '(lit, rest) := scanIdentifier s in
        let tok := if 1 <? String.length lit then Lookup lit else IDENT in
        option_map (cons (tok, lit))
          (scanFrom fuel (drop (String.length lit) s) (semiAfter tok))
      else
        match scanOperator s with
        | Some op =>
          let lit := if String.eqb op ";" then op else EmptyString in
          option_map (cons (Operator op, lit))
            (scanFrom fuel (drop (String.length op) s) (semiAfter (Operator op)))
        | None => None
        end
    end
  end.

Definition goScan (src : string) : option (list (Token * string)) :=
  scanFrom (S (String.length src)) src false.

(** A scanner that is [goScan] on the fragment; [fallback] stands for
    what [go/scanner] returns outside it.  Statements about concrete
    lines hold for every [fallback]: they use the fragment only. *)
Definition scanWith (fallback : string -> list (Token * string)) (src : string)
  : list (Token * string) :=
  match goScan src with
  | Some toks => toks
  | None => fallback src
  end.

End GoScanner.

Import GoScanner.

(* ================================================================= *)
(** ** Definitions the statements below use *)

(** Stand-ins for the external collaborators on concrete inputs: a
    parser that returns a given file, and an import normaliser that
    returns its input. *)
Definition parsesTo (file : File) : string -> string -> string + File :=
  fun _ _ => inr file.

Definition processId : string -> string -> string + string :=
  fun _ output => inr output.

(** For closed examples, whose lines all lie in the scanner fragment:
    a fallback that is never consulted there, and the visiting orders
    in which every [range] loop takes the entries as they are listed. *)
Definition unscanned : string -> list (Token * string) := fun _ => [].

Definition listed : nat -> string -> nat := fun _ _ => 0.

(** The position of [k] in a list of keys. *)
Fixpoint position (k : string) (l : list string) : nat :=
  match l with
  | [] => 0
  | x :: rest => if String.eqb x k then 0 else S (position k rest)
  end.

(** The elements of a list with their numbers, from [k] on. *)
Fixpoint numbered {A : Type} (k : nat) (l : list A) : list (nat * A) :=
  match l with
  | [] => []
  | a :: rest => (k, a) :: numbered (S k) rest
  end.

(** The names the coverage check looks at, in the order of the file:
    the type specifications whose type is a selector on the identifier
    [generic]. *)
Definition placeholderName (spec : Spec) : list string :=
  match spec with
  | TypeSpec name (SelectorExpr (Ident x) _) =>
    if String.eqb x genericPackage then [name] else []
  | _ => []
  end.

Definition declaredPlaceholders (decls : list Decl) : list string :=
  flat_map (fun decl => match decl with
                        | GenDecl specs => flat_map placeholderName specs
                        | OtherDecl => []
                        end) decls.

(** A type specification [type name generic.<member>]. *)
Definition placeholderDecl (name member : string) : Spec :=
  TypeSpec name (SelectorExpr (Ident genericPackage) member).

(** No key of [typeSet] other than [t] occurs in [s]. *)
Definition noOtherKey (typeSet : TypeSet) (t s : string) : bool :=
  forallb (fun t' => String.eqb t' t || negb (Contains s t')) (keys typeSet).

(** At most one key of [typeSet] occurs in [line], and rewriting the
    line for that key brings in no other key. *)
Definition loneKey (scan : string -> list (Token * string))
  (typeSet : TypeSet) (line : string) : bool :=
  forallb
    (fun '(t, specificType) =>
       negb (Contains line t)
       || (noOtherKey typeSet t line
           && match subTypeIntoLine scan line t specificType with
              | Ret newLine => noOtherKey typeSet t newLine
              | Panic => true
              end))
    typeSet.

(** Rewriting [line] for the set gives the same result, a line or a
    panic, in whatever order the entries are visited. *)
Definition orderFree (scan : string -> list (Token * string))
  (typeSet : TypeSet) (line : string) : Prop :=
  forall visited,
    Permutation typeSet visited ->
    subTypeSet scan visited line = subTypeSet scan typeSet line.

(** [orderFree] on every line of [src] that the generator keeps. *)
Definition orderFreeLines (scan : string -> list (Token * string))
  (src : string) (typeSet : TypeSet) : Prop :=
  forall line,
    In line (scanLines src) -> mentionsGeneric line = false ->
    orderFree scan typeSet line.

(** No byte of [s] is a line feed. *)
Definition noLF (s : string) : Prop := inSet s "010" = false.

(** What a token of the line scanner is like: it has no line feed and
    it fits the buffer. *)
Definition scanned (s : string) : Prop := noLF s /\ fits s = true.

(** The number of lines that start with [p]. *)
Definition countPrefix (p : string) (lines : list string) : nat :=
  List.length (filter (fun l => HasPrefix l p) lines).

(** The unexported variant in the words of the specification: the
    fragment with its first letter lower-cased. *)
Definition lowerFirst (frag : string) : string :=
  match frag with
  | EmptyString => EmptyString
  | String c rest =>
    if between 65 90 c then String (ascii_of_nat (code c + 32)) rest else frag
  end.

(** The literal rule for a word that contains the placeholder as a
    proper substring, in the words of the specification: every
    occurrence becomes the exported variant, and a leading exported
    variant of an unexported word becomes the lower-cased one. *)
Definition literalRuleSpec (word P R : string) : outcome string :=
  exported <- wordify R true ;;
  frag <- wordify R false ;;
  let result := Replace word P exported (-1) in
  if HasPrefix result exported && negb (isExported word)
  then Ret (lowerFirst frag ++ drop (String.length exported) result)
  else Ret result.

(** The package renamer in the words of the specification: the first
    line that starts with the package keyword is split on white space
    and its second token replaced. *)
Fixpoint renameSpecLoop (lines : list string) (pkgName : string) (done : bool)
  : list string :=
  match lines with
  | [] => []
  | s :: rest =>
    if negb done && HasPrefix s "package" then
      match Fields s with
      | p0 :: _ :: more => Join (p0 :: pkgName :: more) " " :: renameSpecLoop rest pkgName true
      | _ => s :: renameSpecLoop rest pkgName true
      end
    else s :: renameSpecLoop rest pkgName done
  end.

Definition changePackageSpec (r pkgName : string) : string :=
  Join (map Sprintln (renameSpecLoop (scanLines r) pkgName false)) "".

(** A line the clean-up loop has no special case for, apart from the
    package keyword: it starts neither with the import keyword nor with
    an unwanted prefix. *)
Definition ordinary (line : string) : bool :=
  negb (HasPrefix line importKeyword)
  && negb (existsb (HasPrefix line) unwantedLinePrefixes).

(** The generator's line loop in two passes.  First pass: a line that
    mentions [generic.Type] or [generic.Number] is marked as dropped,
    any other line is rewritten for the keys of the set, in the
    visiting order of its own [range] loop. *)
Definition rewriteLine (scan : string -> list (Token * string))
  (rank : nat -> string -> nat) (typeSet : TypeSet) (numberedLine : nat * string)
  : outcome (option string) :=
  let '(n, line) := numberedLine in
  if mentionsGeneric line then Ret None
  else line' <- subTypeSet scan (visit (rank n) typeSet) line ;; Ret (Some line').

Fixpoint mapOutcome {A B : Type} (f : A -> outcome B) (l : list A)
  : outcome (list B) :=
  match l with
  | [] => Ret []
  | a :: rest =>
    b <- f a ;;
    bs <- mapOutcome f rest ;;
    Ret (b :: bs)
  end.

(** Second pass: a rewritten line that is a [//] comment is written
    only when a line follows it and that line is not dropped; every
    other rewritten line is written. *)
Fixpoint emitted (ls : list (option string)) : list string :=
  match ls with
  | [] => []
  | None :: rest => emitted rest
  | Some line :: rest =>
    if HasPrefix line "//" then
      match rest with
      | Some _ :: _ => line :: emitted rest
      | _ => emitted rest
      end
    else line :: emitted rest
  end.

(* ================================================================= *)
(** * Properties *)

(** ** Strings *)

Lemma drop_empty (n : nat) : drop n "" = "".
Proof. destruct n; reflexivity. Qed.

Lemma HasPrefix_app (p s : string) : HasPrefix (p ++ s) p = true.
Proof.
  unfold HasPrefix. induction p as [|c p IH]; simpl.
  - destruct s; reflexivity.
  - destruct (ascii_dec c c) as [_|ne]; [exact IH | contradiction].
Qed.

Lemma HasPrefix_split (p s : string) :
  HasPrefix s p = true -> s = p ++ drop (String.length p) s.
Proof.
  unfold HasPrefix. revert s. induction p as [|c p IH]; intros s H; simpl.
  - reflexivity.
  - destruct s as [|d s]; simpl in H; [discriminate|].
    destruct (ascii_dec c d) as [->|]; [|discriminate].
    f_equal. apply IH, H.
Qed.

Lemma HasPrefix_cons (c d : ascii) (p s : string) :
  HasPrefix (String d s) (String c p) = Ascii.eqb c d && HasPrefix s p.
Proof.
  unfold HasPrefix; simpl.
  destruct (ascii_dec c d) as [->|ne].
  - rewrite Ascii.eqb_refl. reflexivity.
  - destruct (Ascii.eqb_spec c d); [contradiction | reflexivity].
Qed.

Lemma replaceOld_done (old new s : string) (k : nat) :
  replaceOld old new s k (Some 0) = drop k s.
Proof.
  revert k. induction s as [|c s IH]; intros k.
  - simpl. symmetry. apply drop_empty.
  - destruct k as [|k]; simpl.
    + rewrite IH. reflexivity.
    + apply IH.
Qed.

(** [strings.Replace(s, old, new, 1)] on a string that starts with a
    non-empty [old] rewrites that leading occurrence and nothing else. *)
Lemma Replace_leading (s old new : string) :
  old <> "" -> HasPrefix s old = true ->
  Replace s old new 1 = new ++ drop (String.length old) s.
Proof.
  intros Hne Hp. unfold Replace.
  destruct (String.eqb_spec old new) as [<-|Hon]; simpl.
  - apply HasPrefix_split, Hp.
  - destruct old as [|a old]; [contradiction|].
    destruct s as [|c s]; [discriminate Hp|].
    change (replaceOld (String a old) new (String c s) 0 (limit 1))
      with (if more (Some 1) && HasPrefix (String c s) (String a old)
            then new ++ replaceOld (String a old) new s
                          (String.length (String a old) - 1) (Some 0)
            else String c (replaceOld (String a old) new s 0 (Some 1))).
    rewrite Hp. simpl.
    rewrite replaceOld_done, Nat.sub_0_r. reflexivity.
Qed.

Lemma upperOfByte_nonempty (c : ascii) : upperOfByte c <> "".
Proof.
  unfold upperOfByte.
  repeat match goal with |- context [if ?b then _ else _] => destruct b end;
    discriminate.
Qed.

(** ** The literal rule *)

(** C6. Exact-match identity: on a word equal to the placeholder name,
    [subIntoLiteral] returns the replacement expression itself, with no
    wordification and no change of case or punctuation. *)
Theorem subIntoLiteral_exact (P R : string) :
  subIntoLiteral P P R = Ret R.
Proof.
  unfold subIntoLiteral. rewrite String.eqb_refl. reflexivity.
Qed.

Lemma subIntoLiteral_panic_cases (w P R : string) :
  subIntoLiteral w P R = Panic
  <-> (w <> P /\ Contains w P = true /\ wordify R false = Ret "").
Proof.
  unfold subIntoLiteral, wordify. simpl negb. cbv iota.
  destruct (String.eqb_spec w P) as [->|Hne].
  - split; [discriminate | intros [H _]; contradiction].
  - destruct (Contains w P); simpl.
    + destruct (Replace (TrimLeft (TrimRight R "{}") "*&") "." "" (-1)) as [|c rest];
        simpl.
      * split; [intros _; repeat split; assumption | reflexivity].
      * match goal with |- context [if ?b then _ else _] => destruct b end;
          (split; [discriminate | intros (_ & _ & H); discriminate H]).
    + split; [discriminate | intros (_ & H & _); discriminate H].
Qed.


(** The literal rule on a word that [isExported] takes for unexported. *)
Lemma subIntoLiteral_not_exported (w P R frag : string) :
  w <> P -> Contains w P = true -> isExported w = false ->
  wordify R false = Ret frag -> frag <> "" ->
  exists c rest,
    frag = String c rest
    /\ wordify R true = Ret (upperOfByte c ++ rest)
    /\ subIntoLiteral w P R
       = Ret (let exported := upperOfByte c ++ rest in
              let result := Replace w P exported (-1) in
              if HasPrefix result exported
              then frag ++ drop (String.length exported) result
              else result).
Proof.
  intros Hne Hc Hex Hfrag Hnonempty.
  unfold subIntoLiteral.
  destruct (String.eqb_spec w P) as [|_]; [contradiction|].
  rewrite Hc, Hex, Hfrag. simpl negb. cbv iota.
  unfold wordify in *. simpl negb in *. cbv iota in *.
  injection Hfrag as Hfrag. rewrite Hfrag.
  destruct frag as [|c rest]; [contradiction|].
  exists c, rest. split; [reflexivity|]. split; [reflexivity|].
  simpl bind. cbv zeta. rewrite andb_true_r.
  destruct (HasPrefix (Replace w P (upperOfByte c ++ rest) (-1)) (upperOfByte c ++ rest))
    eqn:Hp; [|reflexivity].
  rewrite Replace_leading; [reflexivity | | exact Hp].
  intros H. destruct (upperOfByte c) eqn:Hu; [|discriminate H].
  exact (upperOfByte_nonempty c Hu).
Qed.

(** On an ASCII byte, the test of [isExported] is the test for an
    upper-case letter. *)
Lemma isUpperByte_ascii (c : ascii) :
  (code c <? 128) = true -> isUpperByte c = between 65 90 c.
Proof.
  destruct c as [[] [] [] [] [] [] [] []]; intros H;
    try discriminate H; reflexivity.
Qed.

(** C4, as the code has it. For a word that starts with an ASCII
    character other than an upper-case letter and contains the
    placeholder as a proper substring, and a replacement whose fragment
    [c rest] is not empty: every occurrence of the placeholder becomes
    the exported variant (the first byte upper-cased); if the result
    starts with the exported variant, that leading occurrence, and
    nothing else, becomes the fragment as it is. *)
Theorem subIntoLiteral_unexported (w P R frag : string) (c0 : ascii) (w' : string) :
  w = String c0 w' -> (code c0 <? 128) = true -> between 65 90 c0 = false ->
  w <> P -> Contains w P = true ->
  wordify R false = Ret frag -> frag <> "" ->
  exists c rest,
    frag = String c rest
    /\ wordify R true = Ret (upperOfByte c ++ rest)
    /\ subIntoLiteral w P R
       = Ret (let exported := upperOfByte c ++ rest in
              let result := Replace w P exported (-1) in
              if HasPrefix result exported
              then frag ++ drop (String.length exported) result
              else result).
Proof.
  intros Hw Hascii Hlower Hne Hc Hfrag Hnonempty.
  apply subIntoLiteral_not_exported; try assumption.
  subst w. simpl. rewrite (isUpperByte_ascii c0 Hascii). exact Hlower.
Qed.

Lemma subIntoLiteral_unexported_witness :
  exists c rest,
    "int" = String c rest
    /\ wordify "*int{}" true = Ret (upperOfByte c ++ rest)
    /\ subIntoLiteral "keyTypeList" "keyType" "*int{}"
       = Ret (let exported := upperOfByte c ++ rest in
              let result := Replace "keyTypeList" "keyType" exported (-1) in
              if HasPrefix result exported
              then "int" ++ drop (String.length exported) result
              else result).
Proof.
  apply (subIntoLiteral_unexported "keyTypeList" "keyType" "*int{}" "int"
           "k" "eyTypeList").
  - reflexivity.
  - reflexivity.
  - reflexivity.
  - discriminate.
  - reflexivity.
  - reflexivity.
  - discriminate.
Defined.

(** C4, counterexample. The word [myTypeList] is unexported and starts
    with the placeholder [myType]; with the replacement [Foo] the code
    returns [FooList], where the rule with a lower-cased unexported
    variant gives [fooList].  And a word that starts with a lower-case
    letter outside ASCII, here the two bytes 195 169 of a small e with
    acute accent, is taken for exported by the test on its first byte:
    with the replacement [int] the code returns [IntList], not
    [intList]. *)
Lemma subIntoLiteral_unexported_counterexample :
  let e := String (ascii_of_nat 195) (String (ascii_of_nat 169) "") in
  "myTypeList" <> "myType"
  /\ Contains "myTypeList" "myType" = true
  /\ isExported "myTypeList" = false
  /\ subIntoLiteral "myTypeList" "myType" "Foo" = Ret "FooList"
  /\ literalRuleSpec "myTypeList" "myType" "Foo" = Ret "fooList"
  /\ subIntoLiteral "myTypeList" "myType" "Foo"
     <> literalRuleSpec "myTypeList" "myType" "Foo"
  /\ Contains (e ++ "TList") (e ++ "T") = true
  /\ isExported (e ++ "TList") = true
  /\ subIntoLiteral (e ++ "TList") (e ++ "T") "int" = Ret "IntList"
  /\ subIntoLiteral (e ++ "TList") (e ++ "T") "int" <> Ret "intList".
Proof.
  cbv zeta. repeat split; try reflexivity; discriminate.
Qed.

(** ** The concrete scenario *)

(** C1, as the code has it. With [type KeyType generic.Type] declared
    and the substitution set [{KeyType: int}], the line
    [func (l *KeyTypeList) Push(v KeyType)] is scanned into twelve
    tokens, the last one the automatic semicolon; the identifier
    [KeyType] becomes [int] as it is, the identifier [KeyTypeList]
    becomes [IntList], and the generator writes the tokens each
    followed by one space: [func ( l * IntList ) Push ( v int ) ; ]. *)
Theorem scenario_push_line (fallback : string -> list (Token * string))
  (rank : nat -> string -> nat) :
  let line := "func (l *KeyTypeList) Push(v KeyType)" in
  let src := "package list" ++ LF ++ LF
             ++ "type KeyType generic.Type" ++ LF ++ LF
             ++ line ++ LF in
  let file := {| Decls := [GenDecl [placeholderDecl "KeyType" "Type"]] |} in
  goScan line
  = Some [ (Keyword "func", "func"); (Operator "(", ""); (IDENT, "l");
           (Operator "*", ""); (IDENT, "KeyTypeList"); (Operator ")", "");
           (IDENT, "Push"); (Operator "(", ""); (IDENT, "v");
           (IDENT, "KeyType"); (Operator ")", ""); (SEMICOLON, LF) ]
  /\ subIntoLiteral "KeyType" "KeyType" "int" = Ret "int"
  /\ subIntoLiteral "KeyTypeList" "KeyType" "int" = Ret "IntList"
  /\ subTypeIntoLine (scanWith fallback) line "KeyType" "int"
     = Ret "func ( l * IntList ) Push ( v int ) ; "
  /\ generateSpecific (scanWith fallback) (parsesTo file) rank "list.go" src
       [("KeyType", "int")]
     = Ret (Bytes ("package list" ++ LF ++ LF ++ LF
                   ++ "func ( l * IntList ) Push ( v int ) ; " ++ LF)).
Proof.
  cbv zeta. repeat split; vm_compute; reflexivity.
Qed.

(** C1, counterexample. The output for the line is not the string
    [func (l *IntList) Push(v int)], and no line of the generator's
    output is that string. *)
Lemma scenario_push_line_counterexample :
  let line := "func (l *KeyTypeList) Push(v KeyType)" in
  let src := "package list" ++ LF ++ LF
             ++ "type KeyType generic.Type" ++ LF ++ LF
             ++ line ++ LF in
  let file := {| Decls := [GenDecl [placeholderDecl "KeyType" "Type"]] |} in
  subTypeIntoLine (scanWith unscanned) line "KeyType" "int"
  <> Ret "func (l *IntList) Push(v int)"
  /\ exists out,
       generateSpecific (scanWith unscanned) (parsesTo file) listed "list.go" src
         [("KeyType", "int")]
       = Ret (Bytes out)
       /\ ~ In "func (l *IntList) Push(v int)" (scanLines out).
Proof.
  cbv zeta. split.
  - vm_compute. discriminate.
  - eexists. split; [vm_compute; reflexivity|].
    vm_compute. intros H.
    repeat (destruct H as [H|H]; [discriminate H|]). exact H.
Qed.

(** ** More on strings *)

Lemma app_empty_r (s : string) : s ++ "" = s.
Proof. induction s as [|c s IH]; simpl; [reflexivity | rewrite IH; reflexivity]. Qed.

Lemma app_assoc_s (a b c : string) : (a ++ b) ++ c = a ++ b ++ c.
Proof. induction a as [|x a IH]; simpl; [reflexivity | rewrite IH; reflexivity]. Qed.

Lemma length_app_s (a b : string) :
  String.length (a ++ b) = String.length a + String.length b.
Proof. induction a as [|x a IH]; simpl; [reflexivity | rewrite IH; reflexivity]. Qed.

Lemma drop_app (a b : string) : drop (String.length a) (a ++ b) = b.
Proof. induction a as [|x a IH]; simpl; [destruct b; reflexivity | exact IH]. Qed.

Lemma HasSuffix_app (s suf : string) : HasSuffix (s ++ suf) suf = true.
Proof.
  unfold HasSuffix. rewrite length_app_s.
  replace (String.length s + String.length suf - String.length suf)
    with (String.length s) by lia.
  rewrite drop_app, String.eqb_refl.
  rewrite andb_true_r. apply Nat.leb_le. lia.
Qed.

(** A line that starts with [package] does not start with [import]. *)
Lemma package_not_import (line : string) :
  HasPrefix line packageKeyword = true -> HasPrefix line importKeyword = false.
Proof.
  destruct line as [|c r]; [discriminate|].
  unfold packageKeyword, importKeyword. rewrite !HasPrefix_cons.
  destruct (Ascii.eqb_spec "p" c) as [<-|]; [reflexivity | discriminate].
Qed.

(** [makeLine] keeps the prefixes that have no end-of-line byte. *)
Lemma makeLine_prefix (p : string) :
  (forall c, inSet p c = true -> inSet linefeed c = false) ->
  forall t, HasPrefix (makeLine t) p = HasPrefix t p.
Proof.
  unfold makeLine, Sprintln.
  assert (He : forall s, HasPrefix s "" = true) by (intros []; reflexivity).
  induction p as [|a p IH]; intros Hp t.
  - rewrite !He. reflexivity.
  - assert (Ha : inSet linefeed a = false).
    { apply Hp. simpl. rewrite Ascii.eqb_refl. reflexivity. }
    assert (Hp' : forall c, inSet p c = true -> inSet linefeed c = false).
    { intros c Hc. apply Hp. simpl. rewrite Hc. apply orb_true_r. }
    specialize (IH Hp').
    assert (Hlf : HasPrefix (String "010" "") (String a p) = false).
    { rewrite HasPrefix_cons.
      destruct (Ascii.eqb_spec a "010") as [->|]; [discriminate Ha | reflexivity]. }
    destruct t as [|c t].
    + exact Hlf.
    + specialize (IH t).
      change (TrimRight (String c t) linefeed)
        with (match TrimRight t linefeed with
              | EmptyString => if inSet linefeed c then EmptyString else byte c
              | String d u => String c (String d u)
              end).
      destruct (TrimRight t linefeed) as [|d u] eqn:Ht.
      * change ("" ++ byte "010") with (String "010" "") in IH.
        destruct (inSet linefeed c) eqn:Hc.
        -- cbv iota. change ("" ++ byte "010") with (String "010" "").
           rewrite Hlf, HasPrefix_cons.
           destruct (Ascii.eqb_spec a c) as [->|]; [|reflexivity].
           rewrite Hc in Ha. discriminate.
        -- cbv iota. change (byte c ++ byte "010") with (String c (String "010" "")).
           rewrite !HasPrefix_cons, IH. reflexivity.
      * change (String c (String d u) ++ byte "010")
          with (String c (String d u ++ byte "010")).
        rewrite !HasPrefix_cons, IH. reflexivity.
Qed.

Lemma makeLine_package (t : string) :
  HasPrefix (makeLine t) packageKeyword = HasPrefix t packageKeyword.
Proof.
  apply makeLine_prefix. intros c H. simpl in H.
  repeat (apply orb_true_iff in H; destruct H as [H|H]);
    try discriminate; apply Ascii.eqb_eq in H; subst; reflexivity.
Qed.

Lemma makeLine_import (t : string) :
  HasPrefix (makeLine t) importKeyword = HasPrefix t importKeyword.
Proof.
  apply makeLine_prefix. intros c H. simpl in H.
  repeat (apply orb_true_iff in H; destruct H as [H|H]);
    try discriminate; apply Ascii.eqb_eq in H; subst; reflexivity.
Qed.

(** ** The clean-up loop *)

Lemma keepLine_inv (line l : string) : keepLine line = Some l -> l = makeLine line.
Proof.
  unfold keepLine. destruct (existsb _ _); [discriminate|].
  intros H. injection H as <-. reflexivity.
Qed.

(** What one iteration keeps is [makeLine] of a line that does not
    start with [import]; a kept line that starts with [package] was met
    with [packageFound] unset and sets it. *)
Lemma cleanStep_kept (st st' : bool * bool) (line l : string) :
  cleanStep st line = (st', Some l) ->
  l = makeLine line
  /\ HasPrefix line importKeyword = false
  /\ snd st = false /\ snd st' = false
  /\ (HasPrefix line packageKeyword = true -> fst st = false /\ fst st' = true)
  /\ (HasPrefix line packageKeyword = false -> fst st' = fst st).
Proof.
  destruct st as [pf ins]. unfold cleanStep.
  destruct ins.
  { destruct (HasSuffix line closeBrace); discriminate. }
  destruct (HasPrefix line packageKeyword) eqn:Hpk.
  - destruct pf; [discriminate|].
    intros H. injection H as <- Hk. apply keepLine_inv in Hk.
    repeat split; auto using package_not_import; discriminate.
  - destruct (HasPrefix line importKeyword) eqn:Him.
    + destruct (HasSuffix line openBrace); discriminate.
    + intros H. injection H as <- Hk. apply keepLine_inv in Hk.
      repeat split; auto; discriminate.
Qed.

(** Once a package line is kept, [packageFound] stays set. *)
Lemma cleanStep_found (ins : bool) (line : string) :
  fst (fst (cleanStep (true, ins) line)) = true.
Proof.
  unfold cleanStep. destruct ins.
  - destruct (HasSuffix line closeBrace); reflexivity.
  - destruct (HasPrefix line packageKeyword); [reflexivity|].
    destruct (HasPrefix line importKeyword); [|reflexivity].
    destruct (HasSuffix line openBrace); reflexivity.
Qed.

Lemma cleanLoop_cons (st : bool * bool) (line : string) (rest : list string) :
  cleanLoop st (line :: rest)
  = match cleanStep st line with
    | (st', Some l) => l :: cleanLoop st' rest
    | (st', None) => cleanLoop st' rest
    end.
Proof. simpl. destruct (cleanStep st line) as [st' [l|]]; reflexivity. Qed.

Lemma countPrefix_cons (p l : string) (ls : list string) :
  countPrefix p (l :: ls) = (if HasPrefix l p then 1 else 0) + countPrefix p ls.
Proof. unfold countPrefix. simpl. destruct (HasPrefix l p); reflexivity. Qed.

Lemma cleanLoop_no_import (lines : list string) :
  forall st, countPrefix importKeyword (cleanLoop st lines) = 0.
Proof.
  induction lines as [|line rest IH]; intros st; [reflexivity|].
  rewrite cleanLoop_cons.
  destruct (cleanStep st line) as [st' [l|]] eqn:Hs; [|apply IH].
  apply cleanStep_kept in Hs. destruct Hs as (-> & Him & _).
  rewrite countPrefix_cons, makeLine_import, Him. apply IH.
Qed.

Lemma cleanLoop_found (lines : list string) :
  forall ins, countPrefix packageKeyword (cleanLoop (true, ins) lines) = 0.
Proof.
  induction lines as [|line rest IH]; intros ins; [reflexivity|].
  rewrite cleanLoop_cons. pose proof (cleanStep_found ins line) as Hf.
  destruct (cleanStep (true, ins) line) as [[pf' ins'] [l|]] eqn:Hs;
    simpl in Hf; subst pf'; [|apply IH].
  apply cleanStep_kept in Hs. destruct Hs as (-> & _ & _ & _ & Hpk & _).
  rewrite countPrefix_cons, makeLine_package.
  destruct (HasPrefix line packageKeyword); [|apply IH].
  destruct Hpk as [Hpk _]; [reflexivity | discriminate Hpk].
Qed.

Lemma cleanLoop_at_most_one (lines : list string) :
  forall st, countPrefix packageKeyword (cleanLoop st lines) <= 1.
Proof.
  induction lines as [|line rest IH]; intros st; [unfold countPrefix; simpl; lia|].
  rewrite cleanLoop_cons.
  destruct (cleanStep st line) as [[pf' ins'] [l|]] eqn:Hs; [|apply IH].
  apply cleanStep_kept in Hs. destruct Hs as (-> & _ & _ & _ & Hpk & _).
  rewrite countPrefix_cons, makeLine_package.
  destruct (HasPrefix line packageKeyword); [|apply IH].
  destruct Hpk as [_ Hpk]; [reflexivity|]. simpl in Hpk. subst pf'.
  rewrite cleanLoop_found. simpl. lia.
Qed.

(** ** Lines of a joined text *)

Lemma inSet_cons (d c : ascii) (r : string) :
  inSet (String d r) c = Ascii.eqb c d || inSet r c.
Proof. reflexivity. Qed.

Lemma noLF_cons (c : ascii) (s : string) :
  noLF (String c s) <-> c <> "010"%char /\ noLF s.
Proof.
  unfold noLF. rewrite inSet_cons, orb_false_iff, Ascii.eqb_sym, Ascii.eqb_neq.
  reflexivity.
Qed.

Lemma noLF_app (a b : string) : noLF a -> noLF b -> noLF (a ++ b).
Proof.
  induction a as [|c a IH]; intros Ha Hb; [exact Hb|].
  apply noLF_cons in Ha. destruct Ha as [Hc Ha].
  change (String c a ++ b) with (String c (a ++ b)).
  apply noLF_cons. split; [exact Hc | apply IH; assumption].
Qed.

Lemma noLF_dropCR (s : string) : noLF s -> noLF (dropCR s).
Proof.
  induction s as [|c s IH]; intros H; [reflexivity|].
  apply noLF_cons in H. destruct H as [Hc Hs].
  destruct s as [|d s].
  - simpl. destruct (Ascii.eqb c "013"); [reflexivity|].
    apply noLF_cons. split; [exact Hc | reflexivity].
  - change (dropCR (String c (String d s))) with (String c (dropCR (String d s))).
    apply noLF_cons. split; [exact Hc | apply IH, Hs].
Qed.

Lemma noLF_TrimRight (s cutset : string) : noLF s -> noLF (TrimRight s cutset).
Proof.
  induction s as [|c s IH]; intros H; [reflexivity|].
  apply noLF_cons in H. destruct H as [Hc Hs].
  specialize (IH Hs). simpl.
  destruct (TrimRight s cutset) as [|d u].
  - destruct (inSet cutset c); [reflexivity|].
    apply noLF_cons. split; [exact Hc | reflexivity].
  - apply noLF_cons. split; [exact Hc | exact IH].
Qed.

Lemma fits_shorter (a b : string) :
  String.length a <= String.length b -> fits b = true -> fits a = true.
Proof.
  unfold fits, maxScanTokenSize. rewrite !N.ltb_lt. lia.
Qed.

Lemma length_dropCR (s : string) : String.length (dropCR s) <= String.length s.
Proof.
  induction s as [|c s IH]; [simpl; lia|].
  destruct s as [|d s].
  - simpl. destruct (Ascii.eqb c "013"); simpl; lia.
  - change (dropCR (String c (String d s))) with (String c (dropCR (String d s))).
    simpl in *. lia.
Qed.

Lemma length_TrimRight (s cutset : string) :
  String.length (TrimRight s cutset) <= String.length s.
Proof.
  induction s as [|c s IH]; [simpl; lia|].
  simpl. destruct (TrimRight s cutset) as [|d u].
  - destruct (inSet cutset c); simpl; lia.
  - simpl in *. lia.
Qed.

Lemma scanned_dropCR (s : string) : noLF s -> fits s = true -> scanned (dropCR s).
Proof.
  intros Hs Hf. split; [apply noLF_dropCR, Hs|].
  exact (fits_shorter _ _ (length_dropCR s) Hf).
Qed.

Lemma scanned_TrimRight (s cutset : string) :
  scanned s -> scanned (TrimRight s cutset).
Proof.
  intros [Hs Hf]. split; [apply noLF_TrimRight, Hs|].
  exact (fits_shorter _ _ (length_TrimRight s cutset) Hf).
Qed.

(** Every token of the line scanner has no line feed and fits the
    buffer. *)
Lemma linesFrom_scanned (s : string) :
  forall cur, noLF cur -> Forall scanned (linesFrom s cur).
Proof.
  induction s as [|c s IH]; intros cur Hcur; simpl.
  - destruct cur as [|d cur]; [constructor|].
    unfold token. destruct (fits (String d cur)) eqn:Hf; [|constructor].
    constructor; [apply scanned_dropCR; assumption | constructor].
  - destruct (Ascii.eqb_spec c "010") as [->|Hne].
    + unfold token. destruct (fits cur) eqn:Hf; [|constructor].
      constructor; [apply scanned_dropCR; assumption | apply IH; reflexivity].
    + apply IH. apply noLF_app; [exact Hcur|].
      apply noLF_cons. split; [exact Hne | reflexivity].
Qed.

Lemma scanLines_scanned (s : string) : Forall scanned (scanLines s).
Proof. apply linesFrom_scanned. reflexivity. Qed.

Lemma linesFrom_line (u rest : string) :
  noLF u ->
  forall cur,
    fits (cur ++ u) = true ->
    linesFrom (u ++ LF ++ rest) cur = dropCR (cur ++ u) :: linesFrom rest "".
Proof.
  induction u as [|c u IH]; intros Hu cur Hf.
  - simpl. rewrite app_empty_r in *. unfold token. rewrite Hf. reflexivity.
  - apply noLF_cons in Hu. destruct Hu as [Hc Hu].
    simpl. destruct (Ascii.eqb_spec c "010") as [->|Hne]; [contradiction|].
    rewrite (IH Hu); rewrite app_assoc_s; [reflexivity | exact Hf].
Qed.

(** A line that does not fit the buffer ends the scan: neither the line
    nor anything after it is delivered. *)
Lemma linesFrom_too_long (u rest : string) :
  noLF u ->
  forall cur,
    fits (cur ++ u) = false ->
    linesFrom (u ++ LF ++ rest) cur = [].
Proof.
  induction u as [|c u IH]; intros Hu cur Hf.
  - simpl. rewrite app_empty_r in *. unfold token. rewrite Hf. reflexivity.
  - apply noLF_cons in Hu. destruct Hu as [Hc Hu].
    simpl. destruct (Ascii.eqb_spec c "010") as [->|Hne]; [contradiction|].
    rewrite (IH Hu); rewrite ?app_assoc_s; [reflexivity | exact Hf].
Qed.

Lemma scanLines_too_long (u rest : string) :
  noLF u -> fits u = false -> scanLines (u ++ LF ++ rest) = [].
Proof.
  intros Hu Hf. unfold scanLines. apply linesFrom_too_long; assumption.
Qed.

Lemma Join_cons (p : string) (rest : list string) :
  Join (p :: rest) "" = p ++ Join rest "".
Proof. destruct rest; simpl; [rewrite app_empty_r|]; reflexivity. Qed.

Lemma dropCR_TrimRight (t : string) :
  dropCR (TrimRight t linefeed) = TrimRight t linefeed.
Proof.
  induction t as [|c t IH]; [reflexivity|].
  change (TrimRight (String c t) linefeed)
    with (match TrimRight t linefeed with
          | EmptyString => if inSet linefeed c then EmptyString else byte c
          | String d u => String c (String d u)
          end).
  destruct (TrimRight t linefeed) as [|d u].
  - destruct (inSet linefeed c) eqn:Hc; [reflexivity|].
    simpl. simpl in Hc. destruct (Ascii.eqb c "013"); [discriminate Hc | reflexivity].
  - change (dropCR (String c (String d u))) with (String c (dropCR (String d u))).
    rewrite IH. reflexivity.
Qed.

(** Splitting the joined lines again gives the lines without their
    terminators. *)
Lemma scanLines_Join (ts : list string) :
  Forall scanned ts ->
  scanLines (Join (map makeLine ts) "") = map (fun t => TrimRight t linefeed) ts.
Proof.
  unfold scanLines.
  induction 1 as [|t ts Ht _ IH]; [reflexivity|].
  simpl map. rewrite Join_cons. unfold makeLine at 1, Sprintln.
  rewrite app_assoc_s.
  change (byte "010" ++ Join (map makeLine ts) "")
    with (LF ++ Join (map makeLine ts) "").
  destruct (scanned_TrimRight t linefeed Ht) as [Hlf Hf].
  rewrite linesFrom_line by assumption.
  simpl append. rewrite dropCR_TrimRight, IH. reflexivity.
Qed.

Lemma HasPrefix_line (p : string) :
  noLF p -> forall u, HasPrefix (u ++ LF) p = HasPrefix u p.
Proof.
  induction p as [|a p IH]; intros Hp u.
  - destruct u; reflexivity.
  - apply noLF_cons in Hp. destruct Hp as [Ha Hp].
    destruct u as [|c u].
    + change ("" ++ LF) with (String "010" ""). rewrite HasPrefix_cons.
      apply Ascii.eqb_neq in Ha. rewrite Ha. reflexivity.
    + change (String c u ++ LF) with (String c (u ++ LF)).
      rewrite !HasPrefix_cons, (IH Hp). reflexivity.
Qed.

Lemma cleanLoop_shape (lines : list string) :
  Forall scanned lines ->
  forall st, exists ts, cleanLoop st lines = map makeLine ts /\ Forall scanned ts.
Proof.
  induction 1 as [|line rest Hl _ IH]; intros st.
  - exists []. split; [reflexivity | constructor].
  - rewrite cleanLoop_cons.
    destruct (cleanStep st line) as [st' [l|]] eqn:Hs; [|apply IH].
    apply cleanStep_kept in Hs. destruct Hs as (-> & _).
    destruct (IH st') as (ts & -> & Hts).
    exists (line :: ts). split; [reflexivity | constructor; assumption].
Qed.

(** Counting by prefix on the lines of [cleanOutput] is counting on
    [cleanOutputLines]. *)
Lemma countPrefix_cleanOutput (p total : string) :
  noLF p ->
  countPrefix p (scanLines (cleanOutput total))
  = countPrefix p (cleanOutputLines total).
Proof.
  intros Hp. unfold cleanOutput, cleanOutputLines.
  destruct (cleanLoop_shape (scanLines total)
              (scanLines_scanned total) (false, false)) as (ts & -> & Hts).
  rewrite scanLines_Join by exact Hts.
  clear Hts. induction ts as [|t ts IH]; [reflexivity|].
  simpl map. rewrite !countPrefix_cons, IH.
  unfold makeLine, Sprintln.
  change (byte "010") with LF. rewrite (HasPrefix_line p Hp). reflexivity.
Qed.

Lemma countPrefix_zero_cons (p l : string) (ls : list string) :
  countPrefix p (l :: ls) = 0 -> HasPrefix l p = false /\ countPrefix p ls = 0.
Proof.
  rewrite countPrefix_cons. destruct (HasPrefix l p); [discriminate|].
  intros H. split; [reflexivity | exact H].
Qed.

Lemma cleanLoop_before_package (pre rest : list string) :
  countPrefix packageKeyword pre = 0 -> countPrefix importKeyword pre = 0 ->
  countPrefix packageKeyword (cleanLoop (false, false) (pre ++ rest))
  = countPrefix packageKeyword (cleanLoop (false, false) rest).
Proof.
  induction pre as [|line pre IH]; intros Hpk Him; [reflexivity|].
  apply countPrefix_zero_cons in Hpk. destruct Hpk as [Hpk Hpk'].
  apply countPrefix_zero_cons in Him. destruct Him as [Him Him'].
  change ((line :: pre) ++ rest)%list with (line :: (pre ++ rest))%list.
  rewrite cleanLoop_cons. unfold cleanStep. rewrite Hpk, Him.
  unfold keepLine. destruct (existsb (HasPrefix line) unwantedLinePrefixes).
  - apply IH; assumption.
  - rewrite countPrefix_cons, makeLine_package, Hpk. apply IH; assumption.
Qed.

Lemma cleanLoop_first_package (l : string) (post : list string) :
  HasPrefix l packageKeyword = true ->
  countPrefix packageKeyword (cleanLoop (false, false) (l :: post)) = 1.
Proof.
  intros Hpk. rewrite cleanLoop_cons. unfold cleanStep. rewrite Hpk.
  assert (Hk : keepLine l = Some (makeLine l)).
  { unfold keepLine, unwantedLinePrefixes. simpl existsb.
    destruct l as [|c r]; [discriminate Hpk|].
    unfold packageKeyword in Hpk. rewrite HasPrefix_cons in Hpk.
    apply andb_true_iff in Hpk. destruct Hpk as [Hc _].
    apply Ascii.eqb_eq in Hc. subst c.
    rewrite HasPrefix_cons. reflexivity. }
  rewrite Hk, countPrefix_cons, makeLine_package, Hpk, cleanLoop_found.
  reflexivity.
Qed.

Lemma merged_inv (scan : string -> list (Token * string))
  (ParseFile : string -> string -> string + File)
  (ranks : nat -> nat -> string -> nat)
  (filename src : string) (typeSets : list TypeSet) (out : string) :
  merged scan ParseFile ranks filename src typeSets = Ret (Bytes out) ->
  exists total,
    generateAll scan ParseFile ranks filename src typeSets 0 header
    = Ret (Bytes total)
    /\ out = cleanOutput total.
Proof.
  unfold merged.
  destruct (generateAll scan ParseFile ranks filename src typeSets 0 header)
    as [[total|e]|]; simpl; try discriminate.
  intros H. injection H as <-. exists total. split; reflexivity.
Qed.

(** ** The merger *)

(** C10. In the clean-up loop a line that starts with [import] is
    never kept, whatever the state, and opens a block only when it ends
    with an opening parenthesis; inside a block no line is kept, and the
    line that ends with the closing parenthesis is dropped as it ends
    the block.  So no line of the cleaned text starts with [import]. *)
Theorem import_lines_discarded :
  (forall st rest, snd (cleanStep st (importKeyword ++ rest)) = None)
  /\ (forall found rest,
        fst (cleanStep (found, false) (importKeyword ++ rest))
        = (found, HasSuffix (importKeyword ++ rest) openBrace))
  /\ (forall found line, snd (cleanStep (found, true) line) = None)
  /\ (forall found line,
        cleanStep (found, true) (line ++ closeBrace) = ((found, false), None))
  /\ (forall total, countPrefix importKeyword (scanLines (cleanOutput total)) = 0)
  /\ cleanOutput ("package p" ++ LF
                  ++ "import " ++ byte "034" ++ "fmt" ++ byte "034" ++ LF
                  ++ "import (" ++ LF
                  ++ byte "009" ++ byte "034" ++ "os" ++ byte "034" ++ LF
                  ++ ")" ++ LF
                  ++ "var x int" ++ LF)
     = "package p" ++ LF ++ "var x int" ++ LF.
Proof.
  assert (Hi : forall rest, HasPrefix (importKeyword ++ rest) importKeyword = true)
    by (intros; apply HasPrefix_app).
  assert (Hp : forall rest, HasPrefix (importKeyword ++ rest) packageKeyword = false)
    by reflexivity.
  split; [|split; [|split; [|split; [|split]]]].
  - intros [found ins] rest. unfold cleanStep. rewrite Hp, Hi.
    destruct ins;
      [destruct (HasSuffix _ closeBrace) | destruct (HasSuffix _ openBrace)];
      reflexivity.
  - intros found rest. unfold cleanStep. rewrite Hp, Hi.
    destruct (HasSuffix _ openBrace); reflexivity.
  - intros found line. unfold cleanStep.
    destruct (HasSuffix line closeBrace); reflexivity.
  - intros found line. unfold cleanStep. rewrite HasSuffix_app. reflexivity.
  - intros total. rewrite countPrefix_cleanOutput by reflexivity.
    apply cleanLoop_no_import.
  - vm_compute. reflexivity.
Qed.

(** C5, as the code has it. The cleaned text of a run that succeeds has
    at most one line that starts with [package] and no line that starts
    with [import]; it has exactly one line that starts with [package]
    when, among the lines the clean-up reads from the concatenated
    output of the sets, such a line comes before any line that starts
    with [import]. *)
Theorem merged_package_import
  (scan : string -> list (Token * string))
  (ParseFile : string -> string -> string + File)
  (ranks : nat -> nat -> string -> nat)
  (filename src : string) (typeSets : list TypeSet) (out : string) :
  merged scan ParseFile ranks filename src typeSets = Ret (Bytes out) ->
  countPrefix packageKeyword (scanLines out) <= 1
  /\ countPrefix importKeyword (scanLines out) = 0
  /\ forall total pre l post,
       generateAll scan ParseFile ranks filename src typeSets 0 header
       = Ret (Bytes total) ->
       scanLines total = (pre ++ l :: post)%list ->
       countPrefix packageKeyword pre = 0 ->
       countPrefix importKeyword pre = 0 ->
       HasPrefix l packageKeyword = true ->
       countPrefix packageKeyword (scanLines out) = 1.
Proof.
  intros H. apply merged_inv in H. destruct H as (total & Hgen & ->).
  rewrite !countPrefix_cleanOutput by reflexivity.
  split; [apply cleanLoop_at_most_one|].
  split; [apply cleanLoop_no_import|].
  intros total' pre l post Hgen' Hlines Hpk Him Hl.
  rewrite Hgen in Hgen'. injection Hgen' as <-.
  unfold cleanOutputLines. rewrite Hlines.
  rewrite cleanLoop_before_package by assumption.
  apply cleanLoop_first_package, Hl.
Qed.

Lemma merged_package_import_witness :
  let q := byte "034" in
  let tab := byte "009" in
  let src := "package p" ++ LF ++ LF
             ++ "import (" ++ LF
             ++ tab ++ q ++ "fmt" ++ q ++ LF
             ++ ")" ++ LF ++ LF
             ++ "type KeyType generic.Type" ++ LF ++ LF
             ++ "var x KeyType" ++ LF in
  let file := {| Decls := [GenDecl [OtherSpec];
                           GenDecl [placeholderDecl "KeyType" "Type"]] |} in
  let typeSets := [[("KeyType", "int")]; [("KeyType", "string")]] in
  let out := header ++ "package p" ++ LF ++ LF ++ LF ++ LF
             ++ "var x int ; " ++ LF ++ LF ++ LF ++ LF
             ++ "var x string ; " ++ LF in
  merged (scanWith unscanned) (parsesTo file) (fun _ => listed) "t.go" src typeSets
  = Ret (Bytes out)
  /\ countPrefix packageKeyword (scanLines out) <= 1
  /\ countPrefix importKeyword (scanLines out) = 0
  /\ countPrefix packageKeyword (scanLines out) = 1.
Proof.
  cbv zeta.
  assert (Hrun :
    merged (scanWith unscanned)
      (parsesTo {| Decls := [GenDecl [OtherSpec];
                             GenDecl [placeholderDecl "KeyType" "Type"]] |})
      (fun _ => listed) "t.go"
      ("package p" ++ LF ++ LF ++ "import (" ++ LF
       ++ byte "009" ++ byte "034" ++ "fmt" ++ byte "034" ++ LF
       ++ ")" ++ LF ++ LF ++ "type KeyType generic.Type" ++ LF ++ LF
       ++ "var x KeyType" ++ LF)
      [[("KeyType", "int")]; [("KeyType", "string")]]
    = Ret (Bytes (header ++ "package p" ++ LF ++ LF ++ LF ++ LF
                  ++ "var x int ; " ++ LF ++ LF ++ LF ++ LF
                  ++ "var x string ; " ++ LF)))
    by (vm_compute; reflexivity).
  split; [exact Hrun|].
  destruct (merged_package_import _ _ _ _ _ _ _ Hrun) as (Hmost & Himport & Hone).
  split; [exact Hmost|]. split; [exact Himport|].
  apply (Hone
           (header
            ++ ("package p" ++ LF ++ LF ++ "import (" ++ LF
                ++ byte "009" ++ byte "034" ++ "fmt" ++ byte "034" ++ LF
                ++ ")" ++ LF ++ LF ++ LF ++ "var x int ; " ++ LF)
            ++ ("package p" ++ LF ++ LF ++ "import (" ++ LF
                ++ byte "009" ++ byte "034" ++ "fmt" ++ byte "034" ++ LF
                ++ ")" ++ LF ++ LF ++ LF ++ "var x string ; " ++ LF))
           (scanLines header) "package p"
           [ ""; "import ("; byte "009" ++ byte "034" ++ "fmt" ++ byte "034"; ")";
             ""; ""; "var x int ; ";
             "package p"; ""; "import (";
             byte "009" ++ byte "034" ++ "fmt" ++ byte "034"; ")";
             ""; ""; "var x string ; " ]);
    vm_compute; reflexivity.
Defined.

(** C5, counterexample. In the first template a line of the import
    block ends with a closing parenthesis (that of a comment): the
    block is taken to end there, and the lines after it, [os] and the
    closing parenthesis of the block, are in the cleaned text.  In the
    second template the package clause is indented: no line of the
    cleaned text starts with [package]. *)
Lemma merged_package_import_counterexample :
  let q := byte "034" in
  let tab := byte "009" in
  let src1 := "package p" ++ LF ++ LF
              ++ "import (" ++ LF
              ++ tab ++ q ++ "fmt" ++ q ++ " // (std)" ++ LF
              ++ tab ++ q ++ "os" ++ q ++ LF
              ++ ")" ++ LF in
  let file1 := {| Decls := [GenDecl [OtherSpec; OtherSpec]] |} in
  let src2 := " package p" ++ LF in
  let file2 := {| Decls := [] |} in
  (exists out,
     merged (scanWith unscanned) (parsesTo file1) (fun _ => listed) "t.go" src1 [[]]
     = Ret (Bytes out)
     /\ In (tab ++ q ++ "os" ++ q) (scanLines out)
     /\ In ")" (scanLines out))
  /\ (exists out,
        merged (scanWith unscanned) (parsesTo file2) (fun _ => listed) "t.go" src2 [[]]
        = Ret (Bytes out)
        /\ countPrefix packageKeyword (scanLines out) = 0).
Proof.
  cbv zeta. split.
  - eexists. split; [vm_compute; reflexivity|].
    split; vm_compute; tauto.
  - eexists. split; [vm_compute; reflexivity|]. vm_compute. reflexivity.
Qed.

(** ** The package renamer *)

Lemma Join_app (a b : list string) :
  Join (a ++ b) "" = Join a "" ++ Join b "".
Proof.
  induction a as [|x a IH]; [reflexivity|].
  change ((x :: a) ++ b)%list with (x :: (a ++ b))%list.
  rewrite !Join_cons, IH, app_assoc_s. reflexivity.
Qed.

Lemma changePackageLoop_done (lines : list string) (pkgName : string) :
  forall out,
    changePackageLoop lines pkgName true out
    = Ret (out ++ Join (map Sprintln lines) "").
Proof.
  induction lines as [|s rest IH]; intros out.
  - simpl. rewrite app_empty_r. reflexivity.
  - simpl map. rewrite Join_cons. simpl changePackageLoop.
    rewrite IH, app_assoc_s. reflexivity.
Qed.

Lemma changePackageLoop_before (pre rest : list string) (pkgName : string) :
  countPrefix "package" pre = 0 ->
  forall out,
    changePackageLoop (pre ++ rest) pkgName false out
    = changePackageLoop rest pkgName false (out ++ Join (map Sprintln pre) "").
Proof.
  induction pre as [|s pre IH]; intros H out.
  - simpl. rewrite app_empty_r. reflexivity.
  - apply countPrefix_zero_cons in H. destruct H as [Hs H].
    change ((s :: pre) ++ rest)%list with (s :: (pre ++ rest))%list.
    simpl map. rewrite Join_cons. simpl changePackageLoop. rewrite Hs. simpl.
    rewrite (IH H), app_assoc_s. reflexivity.
Qed.

Lemma Contains_cons (c : ascii) (s sub : string) :
  Contains (String c s) sub = HasPrefix (String c s) sub || Contains s sub.
Proof. reflexivity. Qed.

Lemma splitAt_none (s : string) :
  Contains s " " = false -> forall cur, splitAt " " s cur = [cur ++ s].
Proof.
  induction s as [|c s IH]; intros H cur.
  - simpl. rewrite app_empty_r. reflexivity.
  - rewrite Contains_cons in H. apply orb_false_iff in H. destruct H as [Hc Hs].
    rewrite HasPrefix_cons in Hc.
    assert (He : HasPrefix s "" = true) by (destruct s; reflexivity).
    rewrite He, andb_true_r, Ascii.eqb_sym in Hc.
    simpl. rewrite Hc, (IH Hs), app_assoc_s. reflexivity.
Qed.

(** Without a line that starts with [package] the renamer writes every
    line back as it read it. *)
Lemma changePackage_no_package (r pkgName : string) :
  countPrefix "package" (scanLines r) = 0 ->
  changePackage r pkgName = Ret (Join (map Sprintln (scanLines r)) "").
Proof.
  intros H. unfold changePackage.
  rewrite <- (app_nil_r (scanLines r)) at 1.
  rewrite changePackageLoop_before by exact H. reflexivity.
Qed.

(** The text the renamer receives from [Generics] is the joined
    [cleanOutputLines]: reading its lines and writing them back gives
    the same bytes. *)
Lemma cleanOutput_relined (total : string) :
  Join (map Sprintln (scanLines (cleanOutput total))) "" = cleanOutput total.
Proof.
  unfold cleanOutput, cleanOutputLines.
  destruct (cleanLoop_shape (scanLines total)
              (scanLines_scanned total) (false, false)) as (ts & -> & Hts).
  rewrite scanLines_Join by exact Hts. rewrite map_map. reflexivity.
Qed.

(** The renamer on its own: the first line that starts with [package]
    is split at every single space and its second part replaced. *)
Lemma changePackage_first_line (r pkgName : string)
  (pre post more : list string) (l p0 p1 : string) :
  scanLines r = (pre ++ l :: post)%list ->
  countPrefix "package" pre = 0 ->
  HasPrefix l "package" = true ->
  Split l " " = p0 :: p1 :: more ->
  changePackage r pkgName
  = Ret (Join (map Sprintln (pre ++ Join (p0 :: pkgName :: more) " " :: post)) "").
Proof.
  intros Hlines Hpre Hl Hsplit. unfold changePackage. rewrite Hlines.
  rewrite changePackageLoop_before by exact Hpre.
  simpl changePackageLoop. rewrite Hl, Hsplit. simpl negb. cbv iota.
  change (true && true) with true. cbv iota.
  rewrite changePackageLoop_done, map_app, Join_app.
  simpl map. rewrite Join_cons, app_assoc_s. reflexivity.
Qed.

(** C7, as the code has it. When a package name that is not empty is
    supplied, [Generics] passes the cleaned text through
    [changePackage] and hands the result to the import normaliser:
    the first line that starts with [package] is split at every single
    space, the target name put in place of the second part and the
    parts joined with single spaces; every other line, before or after,
    is written as it was read, also a later line that starts with
    [package]. *)
Theorem Generics_renames_first_line
  (scan : string -> list (Token * string))
  (ParseFile : string -> string -> string + File)
  (Process : string -> string -> string + string)
  (ranks : nat -> nat -> string -> nat)
  (filename outputFilename pkgName src : string) (typeSets : list TypeSet)
  (out : string) (pre post more : list string) (l p0 p1 : string) :
  merged scan ParseFile ranks filename src typeSets = Ret (Bytes out) ->
  pkgName <> "" ->
  scanLines out = (pre ++ l :: post)%list ->
  countPrefix "package" pre = 0 ->
  HasPrefix l "package" = true ->
  Split l " " = p0 :: p1 :: more ->
  let renamed :=
    Join (map Sprintln (pre ++ Join (p0 :: pkgName :: more) " " :: post)) "" in
  changePackage out pkgName = Ret renamed
  /\ Generics scan ParseFile Process ranks filename outputFilename pkgName src typeSets
     = match Process outputFilename renamed with
       | inl err => Ret (Fail (errImports err))
       | inr output => Ret (Bytes output)
       end.
Proof.
  intros Hmerged Hname Hlines Hpre Hl Hsplit renamed.
  assert (Hcp : changePackage out pkgName = Ret renamed)
    by (apply (changePackage_first_line out pkgName pre post more l p0 p1);
        assumption).
  split; [exact Hcp|].
  unfold Generics. rewrite Hmerged. simpl bind.
  destruct (String.eqb_spec pkgName "") as [|_]; [contradiction|].
  simpl negb. cbv iota. rewrite Hcp. reflexivity.
Qed.

Lemma Generics_renames_first_line_witness :
  let src := "package list // lists" ++ LF ++ "var x int" ++ LF
             ++ "package c" ++ LF in
  let file := {| Decls := [] |} in
  let renamed := header ++ "package main // lists" ++ LF ++ "var x int" ++ LF
                 ++ "var x int" ++ LF in
  changePackage (header ++ "package list // lists" ++ LF ++ "var x int" ++ LF
                 ++ "var x int" ++ LF) "main"
  = Ret renamed
  /\ Generics (scanWith unscanned) (parsesTo file) processId (fun _ => listed)
       "t.go" "out.go" "main" src [[]; []]
     = Ret (Bytes renamed).
Proof.
  cbv zeta.
  apply (Generics_renames_first_line (scanWith unscanned)
           (parsesTo {| Decls := [] |}) processId (fun _ => listed)
           "t.go" "out.go" "main"
           ("package list // lists" ++ LF ++ "var x int" ++ LF ++ "package c" ++ LF)
           [[]; []]
           (header ++ "package list // lists" ++ LF ++ "var x int" ++ LF
            ++ "var x int" ++ LF)
           (scanLines header) ["var x int"; "var x int"] ["//"; "lists"]
           "package list // lists" "package" "list").
  - vm_compute. reflexivity.
  - discriminate.
  - vm_compute. reflexivity.
  - reflexivity.
  - reflexivity.
  - reflexivity.
Defined.

(** C7, counterexample. With two spaces after the keyword the second
    part of the split is empty: a run of [Generics] with the target
    name [foo] hands on the line [package foo main], where a split on
    white space has [main] as the second token and gives
    [package foo]. *)
Lemma Generics_renames_counterexample :
  let src := "package  main" ++ LF in
  let file := {| Decls := [] |} in
  let out := header ++ "package  main" ++ LF in
  Fields "package  main" = ["package"; "main"]
  /\ merged (scanWith unscanned) (parsesTo file) (fun _ => listed) "t.go" src [[]]
     = Ret (Bytes out)
  /\ changePackage out "foo" = Ret (header ++ "package foo main" ++ LF)
  /\ Generics (scanWith unscanned) (parsesTo file) processId (fun _ => listed)
       "t.go" "out.go" "foo" src [[]]
     = Ret (Bytes (header ++ "package foo main" ++ LF))
  /\ changePackageSpec out "foo" = header ++ "package foo" ++ LF
  /\ Generics (scanWith unscanned) (parsesTo file) processId (fun _ => listed)
       "t.go" "out.go" "foo" src [[]]
     <> Ret (Bytes (changePackageSpec out "foo")).
Proof.
  cbv zeta. repeat split; try (vm_compute; reflexivity).
  vm_compute. discriminate.
Qed.

(** C9. When the first line that starts with [package] has no space,
    the split has one part and [changePackage] panics; a tab between
    the keyword and the name does not count as a separator. *)
Theorem changePackage_panics (r pkgName : string)
  (pre post : list string) (l : string) :
  scanLines r = (pre ++ l :: post)%list ->
  countPrefix "package" pre = 0 ->
  HasPrefix l "package" = true ->
  Contains l " " = false ->
  changePackage r pkgName = Panic.
Proof.
  intros Hlines Hpre Hl Hsp. unfold changePackage. rewrite Hlines.
  rewrite changePackageLoop_before by exact Hpre.
  simpl changePackageLoop. rewrite Hl. unfold Split.
  rewrite (splitAt_none l Hsp). reflexivity.
Qed.

Lemma changePackage_panics_witness :
  changePackage ("// doc" ++ LF ++ "package" ++ byte "009" ++ "name" ++ LF
                 ++ "var x int" ++ LF) "main"
  = Panic.
Proof.
  apply (changePackage_panics _ "main" ["// doc"] ["var x int"]
           ("package" ++ byte "009" ++ "name")); reflexivity.
Defined.

(** ** The coverage gate *)

Section Coverage.

Variable scan : string -> list (Token * string).
Variable ParseFile : string -> string -> string + File.
Variable Process : string -> string -> string + string.
Variable ranks : nat -> nat -> string -> nat.

Lemma missingInSpecs_sound (typeSet : TypeSet) (specs : list Spec) (Q : string) :
  missingInSpecs specs typeSet = Some Q -> hasKey typeSet Q = false.
Proof.
  induction specs as [|spec rest IH]; [discriminate|].
  destruct spec as [name [x|[x|X0 sel0|] sel|]|]; simpl; try exact IH.
  destruct (String.eqb x genericPackage && negb (hasKey typeSet name)) eqn:Hc;
    [|exact IH].
  intros H. injection H as <-.
  apply andb_true_iff in Hc. destruct Hc as [_ Hc].
  apply negb_true_iff in Hc. exact Hc.
Qed.

Lemma missingInSpecs_complete (typeSet : TypeSet) (specs : list Spec)
  (P member : string) :
  In (placeholderDecl P member) specs -> hasKey typeSet P = false ->
  exists Q, missingInSpecs specs typeSet = Some Q.
Proof.
  intros Hin HP. induction specs as [|spec rest IH]; [contradiction|].
  destruct Hin as [->|Hin].
  - unfold placeholderDecl. simpl.
    rewrite HP. simpl. exists P. reflexivity.
  - destruct (IH Hin) as [Q HQ].
    destruct spec as [name [x|[x|X0 sel0|] sel|]|]; simpl; try (exists Q; exact HQ).
    destruct (String.eqb x genericPackage && negb (hasKey typeSet name));
      [exists name; reflexivity | exists Q; exact HQ].
Qed.

Lemma missingInDecls_sound (typeSet : TypeSet) (decls : list Decl) (Q : string) :
  missingInDecls decls typeSet = Some Q -> hasKey typeSet Q = false.
Proof.
  induction decls as [|[specs|] rest IH]; simpl; [discriminate | | exact IH].
  destruct (missingInSpecs specs typeSet) as [name|] eqn:Hs; [|exact IH].
  intros H. injection H as <-. exact (missingInSpecs_sound _ _ _ Hs).
Qed.

Lemma missingInDecls_complete (typeSet : TypeSet) (decls : list Decl)
  (specs : list Spec) (P member : string) :
  In (GenDecl specs) decls -> In (placeholderDecl P member) specs ->
  hasKey typeSet P = false ->
  exists Q, missingInDecls decls typeSet = Some Q.
Proof.
  intros Hd Hs HP. induction decls as [|decl rest IH]; [contradiction|].
  destruct Hd as [->|Hd].
  - simpl. destruct (missingInSpecs_complete typeSet specs P member Hs HP) as [Q ->].
    exists Q. reflexivity.
  - destruct (IH Hd) as [Q HQ]. destruct decl as [specs'|]; simpl.
    + destruct (missingInSpecs specs' typeSet) as [name|];
        [exists name; reflexivity | exists Q; exact HQ].
    + exists Q. exact HQ.
Qed.

(** The sets before the first failing one add their output and the
    loop goes on. *)
Lemma find_app_s {A : Type} (f : A -> bool) (a b : list A) :
  find f (a ++ b) = match find f a with
                    | Some x => Some x
                    | None => find f b
                    end.
Proof.
  induction a as [|x a IH]; [reflexivity|].
  simpl. destruct (f x); [reflexivity | exact IH].
Qed.

Lemma find_first {A : Type} (f : A -> bool) (l : list A) (x : A) :
  find f l = Some x ->
  exists before after,
    l = (before ++ x :: after)%list
    /\ Forall (fun y => f y = false) before /\ f x = true.
Proof.
  induction l as [|y l IH]; [discriminate|].
  simpl. destruct (f y) eqn:Hy.
  - intros H. injection H as <-. exists [], l. repeat split; [constructor | exact Hy].
  - intros H. destruct (IH H) as (before & after & -> & Hb & Hx).
    exists (y :: before), after. repeat split; [constructor; assumption | exact Hx].
Qed.

(** The walk of the coverage check returns the first declared
    placeholder name, in the order of the file, that is no key. *)
Lemma missingInSpecs_find (typeSet : TypeSet) (specs : list Spec) :
  missingInSpecs specs typeSet
  = find (fun name => negb (hasKey typeSet name)) (flat_map placeholderName specs).
Proof.
  induction specs as [|spec rest IH]; [reflexivity|].
  destruct spec as [name [x|[x|X0 sel0|] sel|]|]; simpl; try exact IH.
  destruct (String.eqb x genericPackage); simpl; [|exact IH].
  destruct (hasKey typeSet name); simpl; [exact IH | reflexivity].
Qed.

Lemma missingInDecls_find (typeSet : TypeSet) (decls : list Decl) :
  missingInDecls decls typeSet
  = find (fun name => negb (hasKey typeSet name)) (declaredPlaceholders decls).
Proof.
  unfold declaredPlaceholders.
  induction decls as [|[specs|] rest IH]; simpl; [reflexivity | | exact IH].
  rewrite find_app_s, <- missingInSpecs_find, IH.
  destruct (missingInSpecs specs typeSet); reflexivity.
Qed.

(** The sets before the first failing one add their output and the
    loop goes on. *)
Lemma generateAll_succeeding (filename src : string) (pre rest : list TypeSet) :
  forall k,
    Forall (fun entry =>
              exists b, generateSpecific scan ParseFile (ranks (fst entry))
                          filename src (snd entry)
                        = Ret (Bytes b)) (numbered k pre) ->
    forall totalOutput, exists totalOutput',
      generateAll scan ParseFile ranks filename src (pre ++ rest) k totalOutput
      = generateAll scan ParseFile ranks filename src rest
          (k + List.length pre) totalOutput'.
Proof.
  induction pre as [|typeSet pre IH]; intros k Hpre totalOutput.
  - exists totalOutput. simpl. rewrite Nat.add_0_r. reflexivity.
  - simpl in Hpre. inversion Hpre as [|? ? [b Hb] Hrest]; subst.
    simpl in Hb.
    destruct (IH (S k) Hrest (totalOutput ++ b)) as [t' Ht'].
    exists t'. simpl. rewrite Hb. simpl. rewrite Ht'.
    rewrite Nat.add_succ_r. reflexivity.
Qed.

(** C3, as the code has it. Let the template parse, let the sets
    before [typeSet] generate their output, and let some type
    declaration on the [generic] package declare a name [P] that is no
    key of [typeSet].  Then [Generics] returns no bytes but the
    missing-specific-type error, and the error names [Q], the first of
    the declared placeholder names, in the order of the file, that is
    no key of [typeSet]: every name declared before [Q] is a key.  The
    sets after [typeSet] do not matter. *)
Theorem coverage_gate (filename outputFilename pkgName src : string)
  (file : File) (pre post : list TypeSet) (typeSet : TypeSet)
  (specs : list Spec) (P member : string) :
  ParseFile filename src = inr file ->
  Forall (fun entry =>
            exists b, generateSpecific scan ParseFile (ranks (fst entry))
                        filename src (snd entry)
                      = Ret (Bytes b)) (numbered 0 pre) ->
  In (GenDecl specs) (Decls file) ->
  In (placeholderDecl P member) specs ->
  hasKey typeSet P = false ->
  exists Q before after,
    declaredPlaceholders (Decls file) = (before ++ Q :: after)%list
    /\ Forall (fun name => hasKey typeSet name = true) before
    /\ hasKey typeSet Q = false
    /\ Generics scan ParseFile Process ranks filename outputFilename pkgName src
         (pre ++ typeSet :: post)
       = Ret (Fail (errMissingSpecificType Q)).
Proof.
  intros Hparse Hpre Hdecl Hspec HP.
  destruct (missingInDecls_complete typeSet (Decls file) specs P member Hdecl Hspec HP)
    as [Q HQ].
  pose proof HQ as Hfind. rewrite missingInDecls_find in Hfind.
  destruct (find_first _ _ _ Hfind) as (before & after & Hlist & Hbefore & HQkey).
  exists Q, before, after. split; [exact Hlist|]. split.
  { eapply Forall_impl; [|exact Hbefore].
    intros name Hname. simpl in Hname. apply negb_false_iff in Hname. exact Hname. }
  split; [apply negb_true_iff, HQkey|].
  unfold Generics, merged.
  destruct (generateAll_succeeding filename src pre (typeSet :: post) 0 Hpre header)
    as [t' ->].
  simpl. unfold generateSpecific. rewrite Hparse, HQ. reflexivity.
Qed.

End Coverage.

Lemma coverage_gate_witness :
  let src := "package p" ++ LF ++ "type A generic.Type" ++ LF
             ++ "type B generic.Type" ++ LF ++ "type C generic.Number" ++ LF
             ++ "var x A" ++ LF in
  let file := {| Decls := [GenDecl [placeholderDecl "A" "Type"];
                           GenDecl [placeholderDecl "B" "Type";
                                    placeholderDecl "C" "Number"]] |} in
  exists Q before after,
    declaredPlaceholders (Decls file) = (before ++ Q :: after)%list
    /\ Forall (fun name => hasKey [("A", "string")] name = true) before
    /\ hasKey [("A", "string")] Q = false
    /\ Generics (scanWith unscanned) (parsesTo file) processId (fun _ => listed)
         "t.go" "out.go" "" src
         ([[("A", "int"); ("B", "bool"); ("C", "int")]] ++ [("A", "string")] :: [[]])
       = Ret (Fail (errMissingSpecificType Q)).
Proof.
  cbv zeta.
  apply (coverage_gate (scanWith unscanned) (parsesTo _) processId (fun _ => listed)
           "t.go" "out.go" "" _ _
           [[("A", "int"); ("B", "bool"); ("C", "int")]] [[]] [("A", "string")]
           [placeholderDecl "B" "Type"; placeholderDecl "C" "Number"] "C" "Number").
  - reflexivity.
  - constructor; [|constructor]. eexists. vm_compute. reflexivity.
  - simpl. tauto.
  - simpl. tauto.
  - reflexivity.
Defined.

(** C3, counterexample. Both [A] and [B] are declared on the [generic]
    package and the one substitution set has neither: the error names
    [A], the first of them, and not [B]. *)
Lemma coverage_gate_counterexample :
  let src := "package p" ++ LF ++ "type A generic.Type" ++ LF
             ++ "type B generic.Type" ++ LF in
  let file := {| Decls := [GenDecl [placeholderDecl "A" "Type"];
                           GenDecl [placeholderDecl "B" "Type"]] |} in
  In (GenDecl [placeholderDecl "B" "Type"]) (Decls file)
  /\ hasKey [] "B" = false
  /\ Generics (scanWith unscanned) (parsesTo file) processId (fun _ => listed)
       "t.go" "out.go" "" src [[]]
     = Ret (Fail (errMissingSpecificType "A"))
  /\ Generics (scanWith unscanned) (parsesTo file) processId (fun _ => listed)
       "t.go" "out.go" "" src [[]]
     <> Ret (Fail (errMissingSpecificType "B")).
Proof.
  cbv zeta. split; [simpl; tauto|]. split; [reflexivity|].
  split; [vm_compute; reflexivity | vm_compute; discriminate].
Qed.

(** ** The order of a substitution set *)

Section Order.

Variable scan : string -> list (Token * string).
Variable ParseFile : string -> string -> string + File.
Variable Process : string -> string -> string + string.

Lemma noOtherKey_spec (typeSet : TypeSet) (t s : string) :
  noOtherKey typeSet t s = true
  <-> forall t', In t' (keys typeSet) -> t' <> t -> Contains s t' = false.
Proof.
  unfold noOtherKey. rewrite forallb_forall. split.
  - intros H t' Hin Hne. specialize (H t' Hin).
    apply orb_true_iff in H. destruct H as [H|H].
    + apply String.eqb_eq in H. contradiction.
    + apply negb_true_iff, H.
  - intros H t' Hin. destruct (String.eqb_spec t' t) as [|Hne]; [reflexivity|].
    rewrite (H t' Hin Hne). reflexivity.
Qed.

Lemma subTypeSet_none (typeSet : TypeSet) (line : string) :
  (forall t, In t (keys typeSet) -> Contains line t = false) ->
  subTypeSet scan typeSet line = Ret line.
Proof.
  induction typeSet as [|[t sp] rest IH]; intros H; [reflexivity|].
  simpl. rewrite (H t) by (left; reflexivity).
  apply IH. intros t' Hin. apply H. right. exact Hin.
Qed.

(** With one key in the line, the loop does the one substitution,
    wherever the key stands in the order. *)
Lemma subTypeSet_lone (typeSet : TypeSet) (line t sp : string) :
  NoDup (keys typeSet) -> In (t, sp) typeSet ->
  Contains line t = true ->
  (forall t', In t' (keys typeSet) -> t' <> t -> Contains line t' = false) ->
  (forall newLine, subTypeIntoLine scan line t sp = Ret newLine ->
     forall t', In t' (keys typeSet) -> t' <> t -> Contains newLine t' = false) ->
  subTypeSet scan typeSet line = subTypeIntoLine scan line t sp.
Proof.
  induction typeSet as [|[t0 sp0] rest IH]; intros Hnd Hin Hc Hline Hnew;
    [contradiction|].
  simpl in Hnd. apply NoDup_cons_iff in Hnd. destruct Hnd as [Hnotin Hnd].
  destruct Hin as [Heq|Hin].
  - injection Heq as -> ->. simpl. rewrite Hc.
    destruct (subTypeIntoLine scan line t sp) as [newLine|] eqn:Hsub; [|reflexivity].
    simpl. apply subTypeSet_none. intros t' Hin'.
    apply (Hnew newLine eq_refl); [right; exact Hin'|].
    intros ->. contradiction.
  - assert (Hne : t0 <> t).
    { intros ->. apply Hnotin. apply (in_map fst) in Hin. exact Hin. }
    simpl. rewrite (Hline t0) by (try (left; reflexivity); exact Hne).
    apply IH; try assumption.
    + intros t' Hin'. apply Hline. right. exact Hin'.
    + intros newLine Hsub t' Hin'. apply (Hnew newLine Hsub). right. exact Hin'.
Qed.

Lemma keys_perm (typeSet typeSet' : TypeSet) :
  Permutation typeSet typeSet' -> Permutation (keys typeSet) (keys typeSet').
Proof. apply Permutation_map. Qed.

(** *** The visiting orders of the model are the orders of the entries *)

Lemma insertEntry_perm (rank : string -> nat) (entry : string * string)
  (visited : TypeSet) :
  Permutation (entry :: visited) (insertEntry rank entry visited).
Proof.
  induction visited as [|next rest IH]; simpl; [apply Permutation_refl|].
  destruct (rank (fst entry) <=? rank (fst next)); [apply Permutation_refl|].
  eapply Permutation_trans; [apply perm_swap|]. apply perm_skip, IH.
Qed.

Lemma visit_perm (rank : string -> nat) (typeSet : TypeSet) :
  Permutation typeSet (visit rank typeSet).
Proof.
  induction typeSet as [|entry rest IH]; simpl; [constructor|].
  eapply Permutation_trans; [apply perm_skip, IH | apply insertEntry_perm].
Qed.

Lemma insertEntry_comm (rank : string -> nat) (x y : string * string)
  (visited : TypeSet) :
  rank (fst x) <> rank (fst y) ->
  insertEntry rank x (insertEntry rank y visited)
  = insertEntry rank y (insertEntry rank x visited).
Proof.
  intros Hne. induction visited as [|next rest IH]; simpl.
  - destruct (rank (fst x) <=? rank (fst y)) eqn:Hxy;
      destruct (rank (fst y) <=? rank (fst x)) eqn:Hyx; try reflexivity.
    + apply Nat.leb_le in Hxy. apply Nat.leb_le in Hyx. lia.
    + apply Nat.leb_gt in Hxy. apply Nat.leb_gt in Hyx. lia.
  - destruct (rank (fst y) <=? rank (fst next)) eqn:Hyn;
      destruct (rank (fst x) <=? rank (fst next)) eqn:Hxn; simpl;
      rewrite ?Hyn, ?Hxn;
      destruct (rank (fst x) <=? rank (fst y)) eqn:Hxy;
      destruct (rank (fst y) <=? rank (fst x)) eqn:Hyx;
      try reflexivity;
      try (rewrite IH; reflexivity);
      repeat match goal with
             | H : (_ <=? _) = true |- _ => apply Nat.leb_le in H
             | H : (_ <=? _) = false |- _ => apply Nat.leb_gt in H
             end; lia.
Qed.

Lemma visit_same (rank : string -> nat) (l1 l2 : TypeSet) :
  Permutation l1 l2 ->
  (forall a b, In a l1 -> In b l1 -> rank (fst a) = rank (fst b) -> a = b) ->
  visit rank l1 = visit rank l2.
Proof.
  induction 1 as [|x l l' Hperm IH|x y l|l l' l'' H1 IH1 H2 IH2]; intros Hinj.
  - reflexivity.
  - simpl. rewrite IH; [reflexivity|].
    intros a b Ha Hb. apply Hinj; right; assumption.
  - simpl. destruct (Nat.eq_dec (rank (fst x)) (rank (fst y))) as [Heq|Hne].
    + assert (x = y) by (apply Hinj; simpl; auto). subst y. reflexivity.
    + apply insertEntry_comm. intros H. apply Hne. symmetry. exact H.
  - rewrite IH1 by exact Hinj. apply IH2.
    intros a b Ha Hb. apply Hinj; eapply Permutation_in;
      try (apply Permutation_sym; exact H1); assumption.
Qed.

Lemma position_head (k : string) (l : list string) : position k (k :: l) = 0.
Proof. simpl. rewrite String.eqb_refl. reflexivity. Qed.

Lemma position_inj (l : list string) (k k' : string) :
  In k l -> In k' l -> position k l = position k' l -> k = k'.
Proof.
  induction l as [|x l IH]; intros Hk Hk' H; [contradiction|].
  simpl in H.
  destruct (String.eqb_spec x k) as [Exk|Hxk];
    destruct (String.eqb_spec x k') as [Exk'|Hxk'];
    [congruence | discriminate H | discriminate H |].
  injection H as H.
  destruct Hk as [|Hk]; [contradiction|].
  destruct Hk' as [|Hk']; [contradiction|].
  exact (IH Hk Hk' H).
Qed.

Lemma entry_of_key (l : TypeSet) (a b : string * string) :
  NoDup (keys l) -> In a l -> In b l -> fst a = fst b -> a = b.
Proof.
  induction l as [|x l IH]; intros Hnd Ha Hb Hk; [contradiction|].
  simpl in Hnd. apply NoDup_cons_iff in Hnd. destruct Hnd as [Hnotin Hnd].
  destruct Ha as [<-|Ha]; destruct Hb as [<-|Hb]; try reflexivity.
  - exfalso. apply Hnotin. rewrite Hk. apply (in_map fst), Hb.
  - exfalso. apply Hnotin. rewrite <- Hk. apply (in_map fst), Ha.
  - exact (IH Hnd Ha Hb Hk).
Qed.

(** Visiting by position in a list of distinct keys gives that list. *)
Lemma visit_position (before l : TypeSet) :
  NoDup (keys (before ++ l)%list) ->
  visit (fun k => position k (keys (before ++ l)%list)) l = l.
Proof.
  revert before. induction l as [|x l IH]; intros before Hnd; [reflexivity|].
  simpl visit.
  assert (Heq : (before ++ x :: l)%list = ((before ++ [x]) ++ l)%list)
    by (rewrite <- app_assoc; reflexivity).
  rewrite Heq. rewrite IH by (rewrite <- Heq; exact Hnd). rewrite <- Heq.
  destruct l as [|y l]; [reflexivity|].
  simpl insertEntry.
  assert (Hle : position (fst x) (keys (before ++ x :: y :: l)%list)
                <= position (fst y) (keys (before ++ x :: y :: l)%list)).
  { clear IH Heq. unfold keys in *. rewrite map_app in *. simpl map in *.
    induction (map fst before) as [|p ps IHp]; simpl.
    - rewrite String.eqb_refl. lia.
    - simpl in Hnd. apply NoDup_cons_iff in Hnd. destruct Hnd as [Hp Hnd].
      destruct (String.eqb_spec p (fst x)) as [->|_]; [lia|].
      destruct (String.eqb_spec p (fst y)) as [->|_].
      + exfalso. apply Hp. apply in_or_app. right. right. left. reflexivity.
      + specialize (IHp Hnd). lia. }
  apply Nat.leb_le in Hle. rewrite Hle. reflexivity.
Qed.

(** With distinct keys, every order of the entries is the visiting
    order of some ranking of the keys. *)
Lemma visit_reaches (typeSet visited : TypeSet) :
  NoDup (keys typeSet) -> Permutation typeSet visited ->
  exists rank, visit rank typeSet = visited.
Proof.
  intros Hnd Hperm.
  assert (Hnd' : NoDup (keys visited))
    by exact (Permutation_NoDup (keys_perm _ _ Hperm) Hnd).
  exists (fun k => position k (keys visited)).
  rewrite (visit_same _ typeSet visited Hperm).
  - exact (visit_position [] visited Hnd').
  - intros a b Ha Hb Hrank.
    apply (entry_of_key typeSet a b Hnd Ha Hb).
    apply (position_inj (keys visited)); [| |exact Hrank];
      apply (in_map fst); eapply Permutation_in; try exact Hperm; assumption.
Qed.

(** *** Lines whose rewriting does not depend on the order *)

(** A line with at most one key of the set in it, whose rewriting
    brings in no other key, is rewritten the same way in every order. *)
Lemma loneKey_orderFree (typeSet : TypeSet) (line : string) :
  NoDup (keys typeSet) -> loneKey scan typeSet line = true ->
  orderFree scan typeSet line.
Proof.
  intros Hnd Hlone visited Hperm.
  pose proof (keys_perm _ _ Hperm) as Hkeys.
  destruct (existsb (fun t => Contains line t) (keys typeSet)) eqn:Hex.
  - apply existsb_exists in Hex. destruct Hex as (t & Hin & Hc).
    apply in_map_iff in Hin. destruct Hin as ([t1 sp] & Ht & Hin).
    simpl in Ht. subst t1.
    unfold loneKey in Hlone. rewrite forallb_forall in Hlone.
    specialize (Hlone (t, sp) Hin). simpl in Hlone. rewrite Hc in Hlone.
    simpl in Hlone. apply andb_true_iff in Hlone. destruct Hlone as [Hline Hnew].
    rewrite noOtherKey_spec in Hline.
    assert (Hnew' : forall newLine, subTypeIntoLine scan line t sp = Ret newLine ->
              forall t', In t' (keys typeSet) -> t' <> t ->
                         Contains newLine t' = false).
    { intros newLine Hsub. rewrite Hsub in Hnew.
      apply noOtherKey_spec. exact Hnew. }
    rewrite (subTypeSet_lone typeSet line t sp) by assumption.
    apply subTypeSet_lone.
    + exact (Permutation_NoDup Hkeys Hnd).
    + exact (Permutation_in _ Hperm Hin).
    + exact Hc.
    + intros t' Hin'. apply Hline.
      exact (Permutation_in _ (Permutation_sym Hkeys) Hin').
    + intros newLine Hsub t' Hin'. apply (Hnew' newLine Hsub).
      exact (Permutation_in _ (Permutation_sym Hkeys) Hin').
  - assert (Hno : forall t, In t (keys typeSet) -> Contains line t = false).
    { intros t Hin. destruct (Contains line t) eqn:Hc; [|reflexivity].
      rewrite <- Hex. symmetry. apply existsb_exists. exists t. split; assumption. }
    rewrite (subTypeSet_none typeSet) by exact Hno.
    apply subTypeSet_none. intros t Hin. apply Hno.
    exact (Permutation_in _ (Permutation_sym Hkeys) Hin).
Qed.

Lemma generateLines_any_order (typeSet : TypeSet) (lines : list string)
  (rank rank' : nat -> string -> nat) :
  (forall line, In line lines -> mentionsGeneric line = false ->
                orderFree scan typeSet line) ->
  forall n n' comment buf,
    generateLines scan rank lines typeSet n comment buf
    = generateLines scan rank' lines typeSet n' comment buf.
Proof.
  induction lines as [|line rest IH]; intros Hfree n n' comment buf;
    [reflexivity|].
  assert (Hrest : forall l, In l rest -> mentionsGeneric l = false ->
                            orderFree scan typeSet l)
    by (intros l Hl; apply Hfree; right; exact Hl).
  simpl. destruct (mentionsGeneric line) eqn:Hg; [apply IH, Hrest|].
  rewrite (Hfree line (or_introl eq_refl) Hg _ (visit_perm (rank n) typeSet)).
  rewrite (Hfree line (or_introl eq_refl) Hg _ (visit_perm (rank' n') typeSet)).
  destruct (subTypeSet scan typeSet line) as [line'|]; [|reflexivity].
  simpl. destruct (HasPrefix line' "//"); apply IH, Hrest.
Qed.

Lemma generateSpecific_any_order (filename src : string) (typeSet : TypeSet)
  (rank rank' : nat -> string -> nat) :
  orderFreeLines scan src typeSet ->
  generateSpecific scan ParseFile rank filename src typeSet
  = generateSpecific scan ParseFile rank' filename src typeSet.
Proof.
  intros Hfree. unfold generateSpecific.
  destruct (ParseFile filename src) as [err|file]; [reflexivity|].
  destruct (missingInDecls (Decls file) typeSet); [reflexivity|].
  rewrite (generateLines_any_order typeSet (scanLines src) rank rank' Hfree 0 0).
  reflexivity.
Qed.

Lemma generateAll_any_order (filename src : string) (typeSets : list TypeSet)
  (ranks ranks' : nat -> nat -> string -> nat) :
  Forall (orderFreeLines scan src) typeSets ->
  forall i i' totalOutput,
    generateAll scan ParseFile ranks filename src typeSets i totalOutput
    = generateAll scan ParseFile ranks' filename src typeSets i' totalOutput.
Proof.
  induction 1 as [|typeSet rest Hfree _ IH]; intros i i' totalOutput;
    [reflexivity|].
  simpl.
  rewrite (generateSpecific_any_order filename src typeSet (ranks i) (ranks' i') Hfree).
  destruct (generateSpecific scan ParseFile (ranks' i') filename src typeSet)
    as [[b|e]|]; simpl; try reflexivity.
  apply IH.
Qed.

(** C2, as the code has it. Two runs of [Generics] on the same inputs
    differ at most in the orders in which the [range] loops visit the
    substitution sets, an order for each set and each line.  When, for
    every set, each line the generator keeps is rewritten to the same
    result in every order of the entries, the result of the run, bytes
    or error or panic, is the same whatever orders are chosen. *)
Theorem Generics_order_independent
  (ranks ranks' : nat -> nat -> string -> nat)
  (filename outputFilename pkgName src : string)
  (typeSets : list TypeSet) :
  Forall (orderFreeLines scan src) typeSets ->
  Generics scan ParseFile Process ranks filename outputFilename pkgName src typeSets
  = Generics scan ParseFile Process ranks' filename outputFilename pkgName src typeSets.
Proof.
  intros Hfree. unfold Generics, merged.
  rewrite (generateAll_any_order filename src typeSets ranks ranks' Hfree 0 0).
  reflexivity.
Qed.

End Order.

Lemma Generics_order_independent_witness :
  let src := "package p" ++ LF
             ++ "type KeyType generic.Type" ++ LF
             ++ "type ValueType generic.Type" ++ LF
             ++ "var m map[KeyType]ValueType" ++ LF in
  let file := {| Decls := [GenDecl [placeholderDecl "KeyType" "Type"];
                           GenDecl [placeholderDecl "ValueType" "Type"]] |} in
  let typeSet := [("KeyType", "int"); ("ValueType", "string")] in
  Generics (scanWith unscanned) (parsesTo file) processId (fun _ => listed)
    "t.go" "out.go" "q" src [typeSet]
  = Generics (scanWith unscanned) (parsesTo file) processId
      (fun _ _ k => if String.eqb k "KeyType" then 1 else 0)
      "t.go" "out.go" "q" src [typeSet].
Proof.
  cbv zeta. apply Generics_order_independent.
  constructor; [|constructor].
  intros line Hin Hkept visited Hperm.
  apply Permutation_length_2_inv in Hperm.
  vm_compute in Hin.
  destruct Hin as [<-|[<-|[<-|[<-|[]]]]]; try discriminate Hkept;
    destruct Hperm as [->| ->]; vm_compute; reflexivity.
Defined.

(** C2, counterexample. The placeholder [Type] is part of the
    placeholder [KeyType], and the line [var x KeyType] has both keys
    in it.  When its loop visits [KeyType] before [Type] the line
    becomes [var x int]; when it visits [Type] first the line becomes
    [var x KeyString]. *)
Lemma Generics_order_counterexample :
  let src := "package p" ++ LF
             ++ "type KeyType generic.Type" ++ LF
             ++ "type Type generic.Type" ++ LF
             ++ "var x KeyType" ++ LF in
  let file := {| Decls := [GenDecl [placeholderDecl "KeyType" "Type"];
                           GenDecl [placeholderDecl "Type" "Type"]] |} in
  let typeSet := [("KeyType", "int"); ("Type", "string")] in
  let ranks : nat -> nat -> string -> nat := fun _ => listed in
  let ranks' : nat -> nat -> string -> nat :=
    fun _ _ k => if String.eqb k "KeyType" then 1 else 0 in
  visit (ranks 0 3) typeSet = [("KeyType", "int"); ("Type", "string")]
  /\ visit (ranks' 0 3) typeSet = [("Type", "string"); ("KeyType", "int")]
  /\ merged (scanWith unscanned) (parsesTo file) ranks "t.go" src [typeSet]
     = Ret (Bytes (header ++ "package p" ++ LF ++ "var x int ; " ++ LF))
  /\ merged (scanWith unscanned) (parsesTo file) ranks' "t.go" src [typeSet]
     = Ret (Bytes (header ++ "package p" ++ LF ++ "var x KeyString ; " ++ LF))
  /\ Generics (scanWith unscanned) (parsesTo file) processId ranks
       "t.go" "out.go" "" src [typeSet]
     <> Generics (scanWith unscanned) (parsesTo file) processId ranks'
          "t.go" "out.go" "" src [typeSet].
Proof.
  cbv zeta. split; [|split; [|split; [|split]]].
  - reflexivity.
  - reflexivity.
  - vm_compute. reflexivity.
  - vm_compute. reflexivity.
  - vm_compute. discriminate.
Qed.

(* ================================================================= *)
(** * Further properties of the package *)

(** ** The literal rule: visibility and fragments *)

Lemma HasPrefix_empty (s : string) : HasPrefix s "" = true.
Proof. destruct s; reflexivity. Qed.

Lemma Contains_byte (s : string) (c : ascii) : Contains s (byte c) = inSet s c.
Proof.
  induction s as [|d s IH]; [reflexivity|].
  rewrite Contains_cons, inSet_cons, IH. unfold byte.
  rewrite HasPrefix_cons, HasPrefix_empty, andb_true_r. reflexivity.
Qed.

Lemma inSet_app (a b : string) (c : ascii) :
  inSet (a ++ b) c = inSet a c || inSet b c.
Proof.
  induction a as [|d a IH]; [reflexivity|].
  change (String d a ++ b) with (String d (a ++ b)).
  rewrite !inSet_cons, IH, orb_assoc. reflexivity.
Qed.

Lemma replaceOld_step (old new : string) (c : ascii) (s : string) (lim : option nat) :
  replaceOld old new (String c s) 0 lim
  = if more lim && HasPrefix (String c s) old
    then new ++ replaceOld old new s (String.length old - 1) (less lim)
    else String c (replaceOld old new s 0 lim).
Proof. reflexivity. Qed.

(** Removing the dots leaves none. *)
Lemma replaceOld_no_dot (s : string) :
  inSet (replaceOld "." "" s 0 None) "." = false.
Proof.
  induction s as [|c s IH]; [reflexivity|].
  rewrite replaceOld_step. change (more None) with true.
  rewrite andb_true_l, HasPrefix_cons, HasPrefix_empty, andb_true_r.
  destruct (Ascii.eqb_spec "." c) as [<-|Hne].
  - exact IH.
  - rewrite inSet_cons, IH, orb_false_r. apply Ascii.eqb_neq. exact Hne.
Qed.

Lemma upperOfByte_no_dot (c : ascii) :
  c <> "."%char -> inSet (upperOfByte c) "." = false.
Proof.
  destruct c as [[] [] [] [] [] [] [] []]; intros H;
    try reflexivity; contradiction H; reflexivity.
Qed.

(** X1. Whatever the replacement expression and the variant asked for,
    the word [wordify] returns has no dot in it: a qualified type such
    as [pkg.Type] gives one identifier fragment. *)
Theorem wordify_no_dot (R frag : string) (exported : bool) :
  wordify R exported = Ret frag -> Contains frag "." = false.
Proof.
  unfold wordify. intros H.
  change "."%string with (byte ".") in |- *. rewrite Contains_byte.
  pose proof (replaceOld_no_dot (TrimLeft (TrimRight R "{}") "*&")) as Hdot.
  change (Replace (TrimLeft (TrimRight R "{}") "*&") "." "" (-1))
    with (replaceOld "." "" (TrimLeft (TrimRight R "{}") "*&") 0 None) in H.
  destruct exported; simpl in H.
  - destruct (replaceOld "." "" (TrimLeft (TrimRight R "{}") "*&") 0 None)
      as [|c rest]; [discriminate H|].
    injection H as <-. rewrite inSet_cons in Hdot.
    apply orb_false_iff in Hdot. destruct Hdot as [Hc Hrest].
    rewrite inSet_app, Hrest, orb_false_r.
    apply upperOfByte_no_dot. intros ->. discriminate Hc.
  - injection H as <-. exact Hdot.
Qed.

Lemma wordify_no_dot_witness : Contains "PkgType" "." = false.
Proof.
  apply (wordify_no_dot "*pkg.Type{}" "PkgType" true). reflexivity.
Defined.

Lemma lower_initial (c : ascii) :
  between 97 122 c = true ->
  (code c <? 128) = true
  /\ between 65 90 c = false
  /\ exists C, upperOfByte c = byte C
               /\ (code C <? 128) = true /\ between 65 90 C = true.
Proof.
  destruct c as [[] [] [] [] [] [] [] []]; intros H;
    try discriminate H;
    (split; [reflexivity | split; [reflexivity |
       eexists; split; [reflexivity | split; reflexivity]]]).
Qed.

(** After [strings.Replace(w, P, new, -1)] the word starts with [new]
    or with the byte it started with. *)
Lemma Replace_head (d : ascii) (w P new : string) :
  HasPrefix (Replace (String d w) P new (-1)) new = true
  \/ exists u, Replace (String d w) P new (-1) = String d u.
Proof.
  unfold Replace.
  destruct (String.eqb P new || (-1 =? 0)%Z); [right; eexists; reflexivity|].
  destruct P as [|a P].
  - left. apply HasPrefix_app.
  - change (limit (-1)) with (@None nat).
    rewrite replaceOld_step.
    destruct (more None && HasPrefix (String d w) (String a P)).
    + left. apply HasPrefix_app.
    + right. eexists. reflexivity.
Qed.

(** X2. Visibility is kept when the fragment of the replacement starts
    with a lower-case ASCII letter (as [int], [string], [pkg.Type] do):
    for a word that starts with an ASCII character and contains the
    placeholder as a proper substring, [subIntoLiteral] returns a word
    that starts with an ASCII character too, and that character is an
    upper-case letter exactly when the first character of the given
    word is one. *)
Theorem subIntoLiteral_keeps_visibility (w P R : string)
  (c0 : ascii) (w' : string) (c : ascii) (rest : string) :
  w = String c0 w' -> (code c0 <? 128) = true ->
  w <> P -> Contains w P = true ->
  wordify R false = Ret (String c rest) ->
  between 97 122 c = true ->
  exists c1 res',
    subIntoLiteral w P R = Ret (String c1 res')
    /\ (code c1 <? 128) = true
    /\ between 65 90 c1 = between 65 90 c0.
Proof.
  intros -> Hascii Hne Hc Hfrag Hlow.
  destruct (lower_initial c Hlow) as (Hca & Hcl & C & HC & HCa & HCu).
  unfold subIntoLiteral.
  destruct (String.eqb_spec (String c0 w') P) as [|_]; [contradiction|].
  rewrite Hc. simpl negb. cbv iota.
  assert (Hlg : wordify R true = Ret (String C rest)).
  { unfold wordify in *. simpl negb in *. cbv iota in *.
    injection Hfrag as ->. rewrite HC. reflexivity. }
  rewrite Hlg, Hfrag. simpl bind.
  change (isExported (String c0 w')) with (isUpperByte c0).
  rewrite (isUpperByte_ascii c0 Hascii).
  destruct (HasPrefix (Replace (String c0 w') P (String C rest) (-1)) (String C rest))
    eqn:Hp.
  - destruct (between 65 90 c0) eqn:Hw; simpl.
    + rewrite (HasPrefix_split _ _ Hp).
      exists C. eexists. split; [reflexivity|]. split; assumption.
    + rewrite Replace_leading; [| discriminate | exact Hp].
      exists c. eexists. split; [reflexivity|]. split; assumption.
  - simpl.
    destruct (Replace_head c0 w' P (String C rest)) as [H|[u H]].
    + rewrite H in Hp. discriminate Hp.
    + rewrite H. exists c0, u. split; [reflexivity|]. split; [assumption|reflexivity].
Qed.

Lemma subIntoLiteral_keeps_visibility_witness :
  (subIntoLiteral "keyTypeOfkeyType" "keyType" "*pkg.Item" = Ret "pkgItemOfPkgItem"
   /\ subIntoLiteral "KeyTypeList" "KeyType" "*pkg.Item" = Ret "PkgItemList")
  /\ exists c1 res',
       subIntoLiteral "keyTypeOfkeyType" "keyType" "*pkg.Item"
       = Ret (String c1 res')
       /\ (code c1 <? 128) = true
       /\ between 65 90 c1 = between 65 90 "k".
Proof.
  split; [split; reflexivity|].
  apply (subIntoLiteral_keeps_visibility _ "keyType" "*pkg.Item"
           "k" "eyTypeOfkeyType" "p" "kgItem");
    [reflexivity | reflexivity | discriminate | reflexivity | reflexivity
    | reflexivity].
Defined.

(** ** [makeLine] *)

Lemma TrimRight_step (c : ascii) (s cutset : string) :
  TrimRight (String c s) cutset
  = match TrimRight s cutset with
    | EmptyString => if inSet cutset c then EmptyString else byte c
    | String d u => String c (String d u)
    end.
Proof. reflexivity. Qed.

Lemma TrimRight_all (u cutset : string) :
  (forall c, inSet u c = true -> inSet cutset c = true) ->
  TrimRight u cutset = "".
Proof.
  induction u as [|c u IH]; intros H; [reflexivity|].
  rewrite TrimRight_step, IH.
  - rewrite (H c); [reflexivity|]. rewrite inSet_cons, Ascii.eqb_refl. reflexivity.
  - intros d Hd. apply H. rewrite inSet_cons, Hd. apply orb_true_r.
Qed.

Lemma TrimRight_app (s u cutset : string) :
  (forall c, inSet u c = true -> inSet cutset c = true) ->
  TrimRight (s ++ u) cutset = TrimRight s cutset.
Proof.
  intros H. induction s as [|c s IH].
  - simpl append. rewrite (TrimRight_all u cutset H). reflexivity.
  - change (String c s ++ u) with (String c (s ++ u)).
    rewrite !TrimRight_step, IH. reflexivity.
Qed.

Lemma TrimRight_idem (s cutset : string) :
  TrimRight (TrimRight s cutset) cutset = TrimRight s cutset.
Proof.
  induction s as [|c s IH]; [reflexivity|].
  rewrite TrimRight_step.
  destruct (TrimRight s cutset) as [|d u] eqn:Hs.
  - destruct (inSet cutset c) eqn:Hc; [reflexivity|].
    unfold byte. rewrite TrimRight_step. simpl TrimRight. rewrite Hc. reflexivity.
  - rewrite TrimRight_step, IH. reflexivity.
Qed.

(** X3. [makeLine] does not see a trailing run of carriage returns and
    line feeds: a line gets one terminator however it ended. *)
Theorem makeLine_trailing (s u : string) :
  (forall c, inSet u c = true -> inSet linefeed c = true) ->
  makeLine (s ++ u) = makeLine s.
Proof.
  intros H. unfold makeLine. rewrite (TrimRight_app s u linefeed H). reflexivity.
Qed.

Lemma makeLine_trailing_witness :
  makeLine ("var x int" ++ (linefeed ++ linefeed)) = makeLine "var x int".
Proof.
  apply (makeLine_trailing "var x int" (linefeed ++ linefeed)).
  intros c H. rewrite inSet_app, orb_diag in H. exact H.
Defined.

(** X4. [makeLine] is idempotent, and what it returns is the longest
    prefix of its argument that does not end with a carriage return or
    a line feed, followed by one line feed. *)
Theorem makeLine_idempotent (s : string) :
  makeLine (makeLine s) = makeLine s
  /\ exists t u,
       makeLine s = t ++ LF /\ s = t ++ u
       /\ TrimRight t linefeed = t /\ TrimRight u linefeed = "".
Proof.
  split.
  - unfold makeLine, Sprintln. rewrite TrimRight_app.
    + rewrite TrimRight_idem. reflexivity.
    + intros c H. simpl in H. simpl. rewrite orb_false_r in H. rewrite H.
      apply orb_true_r.
  - exists (TrimRight s linefeed).
    assert (Hsplit : exists u, s = TrimRight s linefeed ++ u
                               /\ TrimRight u linefeed = "").
    { induction s as [|c s IH].
      - exists "". split; reflexivity.
      - destruct IH as (u & Hs & Hu). rewrite TrimRight_step.
        destruct (TrimRight s linefeed) as [|d t] eqn:Ht.
        + simpl in Hs. subst u.
          destruct (inSet linefeed c) eqn:Hc.
          * exists (String c s). split; [reflexivity|].
            rewrite TrimRight_step, Hu, Hc. reflexivity.
          * exists s. split; [reflexivity | exact Hu].
        + exists u. split; [|exact Hu].
          change (String c (String d t) ++ u) with (String c (String d t ++ u)).
          rewrite <- Hs. reflexivity. }
    destruct Hsplit as (u & Hs & Hu).
    exists u. split; [reflexivity|]. split; [exact Hs|].
    split; [apply TrimRight_idem | exact Hu].
Qed.

(** ** The merger: directives, banner and order *)

Lemma cleanStep_kept_wanted (st st' : bool * bool) (line l : string) :
  cleanStep st line = (st', Some l) ->
  existsb (HasPrefix line) unwantedLinePrefixes = false.
Proof.
  destruct st as [pf ins]. unfold cleanStep, keepLine.
  destruct ins.
  { destruct (HasSuffix line closeBrace); discriminate. }
  destruct (existsb (HasPrefix line) unwantedLinePrefixes); [|reflexivity].
  destruct (HasPrefix line packageKeyword).
  - destruct pf; discriminate.
  - destruct (HasPrefix line importKeyword);
      [destruct (HasSuffix line openBrace)|]; discriminate.
Qed.

Lemma cleanLoop_no_directive (lines : list string) :
  forall st, countPrefix "//go:generate genny " (cleanLoop st lines) = 0.
Proof.
  induction lines as [|line rest IH]; intros st; [reflexivity|].
  rewrite cleanLoop_cons.
  destruct (cleanStep st line) as [st' [l|]] eqn:Hs; [|apply IH].
  pose proof (cleanStep_kept_wanted _ _ _ _ Hs) as Hw.
  apply cleanStep_kept in Hs. destruct Hs as (-> & _).
  simpl in Hw. rewrite orb_false_r in Hw.
  rewrite countPrefix_cons, makeLine_prefix, Hw; [apply IH|].
  intros c H. simpl in H.
  repeat (apply orb_true_iff in H; destruct H as [H|H]);
    try discriminate; apply Ascii.eqb_eq in H; subst; reflexivity.
Qed.

(** X5. No line of the cleaned text starts with the directive prefix
    [//go:generate genny ], whatever the text that is cleaned. *)
Theorem directives_discarded (total : string) :
  countPrefix "//go:generate genny " (scanLines (cleanOutput total)) = 0.
Proof.
  rewrite countPrefix_cleanOutput by reflexivity.
  apply cleanLoop_no_directive.
Qed.

Lemma scanLines_header (body : string) :
  scanLines (header ++ body)
  = ([ ""; "";
       "// This file was automatically generated by genny.";
       "// Any changes will be lost if this file is regenerated.";
       "// see https://github.com/cheekybits/genny";
       "" ] ++ scanLines body)%list.
Proof. reflexivity. Qed.

(** The banner goes through the clean-up loop unchanged and leaves the
    loop in its initial state. *)
Lemma cleanOutput_header (body : string) :
  cleanOutput (header ++ body) = header ++ cleanOutput body.
Proof.
  unfold cleanOutput, cleanOutputLines. rewrite scanLines_header.
  change (cleanLoop (false, false)
            ([ ""; "";
               "// This file was automatically generated by genny.";
               "// Any changes will be lost if this file is regenerated.";
               "// see https://github.com/cheekybits/genny";
               "" ] ++ scanLines body)%list)
    with ([ LF; LF;
            ("// This file was automatically generated by genny." ++ LF)%string;
            ("// Any changes will be lost if this file is regenerated." ++ LF)%string;
            ("// see https://github.com/cheekybits/genny" ++ LF)%string;
            LF ] ++ cleanLoop (false, false) (scanLines body))%list.
  rewrite Join_app. reflexivity.
Qed.

Section Pipeline.

Variable scan : string -> list (Token * string).
Variable ParseFile : string -> string -> string + File.
Variable Process : string -> string -> string + string.
Variable ranks : nat -> nat -> string -> nat.

Lemma generateAll_in_order (filename src : string) (typeSets : list TypeSet) :
  forall (outs : list string) (k : nat),
    Forall2 (fun entry b =>
               generateSpecific scan ParseFile (ranks (fst entry))
                 filename src (snd entry)
               = Ret (Bytes b))
            (numbered k typeSets) outs ->
    forall totalOutput,
      generateAll scan ParseFile ranks filename src typeSets k totalOutput
      = Ret (Bytes (totalOutput ++ Join outs "")).
Proof.
  induction typeSets as [|typeSet typeSets IH]; intros outs k H totalOutput.
  - inversion H; subst. simpl. rewrite app_empty_r. reflexivity.
  - simpl in H. inversion H as [|? b ? outs' Hb Hrest]; subst.
    simpl in Hb. simpl generateAll. rewrite Hb. simpl bind.
    rewrite (IH outs' (S k) Hrest), Join_cons, app_assoc_s. reflexivity.
Qed.

(** X6. When every set generates its output, the text handed on by the
    merger is the banner, once, followed by the cleaned concatenation of
    the outputs of the sets in the order of the list. *)
Theorem merged_in_order (filename src : string)
  (typeSets : list TypeSet) (outs : list string) :
  Forall2 (fun entry b =>
             generateSpecific scan ParseFile (ranks (fst entry))
               filename src (snd entry)
             = Ret (Bytes b))
          (numbered 0 typeSets) outs ->
  merged scan ParseFile ranks filename src typeSets
  = Ret (Bytes (header ++ cleanOutput (Join outs ""))).
Proof.
  intros H. unfold merged.
  rewrite (generateAll_in_order filename src typeSets outs 0 H).
  cbv beta iota delta [bind].
  rewrite cleanOutput_header. reflexivity.
Qed.

(** X7. The first set whose generation fails ends the run: [Generics]
    returns that error and no bytes, whatever the earlier sets produced
    and whatever sets follow; the import normaliser is not reached. *)
Theorem first_failure_aborts (filename outputFilename pkgName src : string)
  (pre post : list TypeSet) (typeSet : TypeSet) (err : error) :
  Forall (fun entry =>
            exists b, generateSpecific scan ParseFile (ranks (fst entry))
                        filename src (snd entry)
                      = Ret (Bytes b)) (numbered 0 pre) ->
  generateSpecific scan ParseFile (ranks (List.length pre)) filename src typeSet
  = Ret (Fail err) ->
  Generics scan ParseFile Process ranks filename outputFilename pkgName src
    (pre ++ typeSet :: post)
  = Ret (Fail err).
Proof.
  intros Hpre Hfail. unfold Generics, merged.
  destruct (generateAll_succeeding scan ParseFile ranks filename src pre
              (typeSet :: post) 0 Hpre header) as [t' ->].
  simpl. rewrite Hfail. reflexivity.
Qed.

(** X8. A template that does not parse makes every run with at least
    one substitution set fail with the source error that carries the
    parser's diagnostic, whatever the sets are. *)
Theorem parse_failure (filename outputFilename pkgName src diagnostic : string)
  (typeSet : TypeSet) (rest : list TypeSet) :
  ParseFile filename src = inl diagnostic ->
  Generics scan ParseFile Process ranks filename outputFilename pkgName src
    (typeSet :: rest)
  = Ret (Fail (errSource diagnostic)).
Proof.
  intros H. unfold Generics, merged. simpl generateAll.
  unfold generateSpecific. rewrite H. reflexivity.
Qed.

(** X9. With an empty list of substitution sets the template is
    neither parsed nor read: whatever the template and the package
    name, the import normaliser receives the banner alone. *)
Theorem Generics_no_sets (filename outputFilename pkgName src : string) :
  Generics scan ParseFile Process ranks filename outputFilename pkgName src []
  = match Process outputFilename header with
    | inl err => Ret (Fail (errImports err))
    | inr output => Ret (Bytes output)
    end.
Proof.
  unfold Generics, merged. simpl generateAll. simpl bind.
  change (cleanOutput header) with header.
  destruct (negb (String.eqb pkgName "")); [|reflexivity].
  rewrite changePackage_no_package by reflexivity.
  reflexivity.
Qed.

End Pipeline.

Lemma merged_in_order_witness :
  let src := "package p" ++ LF ++ "type KeyType generic.Type" ++ LF
             ++ "var x KeyType" ++ LF in
  let file := {| Decls := [GenDecl [placeholderDecl "KeyType" "Type"]] |} in
  merged (scanWith unscanned) (parsesTo file) (fun _ => listed) "t.go" src
    [[("KeyType", "int")]; [("KeyType", "string")]]
  = Ret (Bytes (header
                ++ cleanOutput (Join [ "package p" ++ LF ++ "var x int ; " ++ LF;
                                       "package p" ++ LF ++ "var x string ; " ++ LF ]
                                     ""))).
Proof.
  cbv zeta. apply merged_in_order.
  repeat constructor.
Defined.

Lemma first_failure_aborts_witness :
  let src := "package p" ++ LF ++ "type KeyType generic.Type" ++ LF
             ++ "var x KeyType" ++ LF in
  let file := {| Decls := [GenDecl [placeholderDecl "KeyType" "Type"]] |} in
  Generics (scanWith unscanned) (parsesTo file) processId (fun _ => listed)
    "t.go" "out.go" "" src
    ([[("KeyType", "int")]] ++ [("ValueType", "int")] :: [[("KeyType", "bool")]])
  = Ret (Fail (errMissingSpecificType "KeyType")).
Proof.
  cbv zeta. apply first_failure_aborts.
  - constructor; [|constructor]. eexists. vm_compute. reflexivity.
  - reflexivity.
Defined.

Lemma parse_failure_witness :
  Generics (scanWith unscanned) (fun _ _ => inl "t.go:1:1: expected 'package'")
    processId (fun _ => listed)
    "t.go" "out.go" "" "func" [[("KeyType", "int")]]
  = Ret (Fail (errSource "t.go:1:1: expected 'package'")).
Proof.
  apply (parse_failure (scanWith unscanned)
           (fun _ _ => inl "t.go:1:1: expected 'package'")
           processId (fun _ => listed)
           "t.go" "out.go" "" "func" "t.go:1:1: expected 'package'").
  reflexivity.
Defined.

(** ** The generator's line loop *)

Section Lines.

Variable scan : string -> list (Token * string).
Variable ParseFile : string -> string -> string + File.
Variable rank : nat -> string -> nat.

(** The pending comment [comment] is written with the next line that
    is not dropped, if there is one. *)
Lemma generateLines_two_pass (typeSet : TypeSet) (lines : list string) :
  forall n comment buf,
    generateLines scan rank lines typeSet n comment buf
    = (ls <- mapOutcome (rewriteLine scan rank typeSet) (numbered n lines) ;;
       let pending :=
         match ls with
         | Some _ :: _ => if String.eqb comment "" then [] else [comment]
         | _ => []
         end in
       Ret (buf ++ Join (map makeLine (pending ++ emitted ls)) "")).
Proof.
  induction lines as [|line rest IH]; intros n comment buf.
  - simpl. rewrite app_empty_r. reflexivity.
  - simpl generateLines.
    change (numbered n (line :: rest)) with ((n, line) :: numbered (S n) rest).
    change (mapOutcome (rewriteLine scan rank typeSet)
              ((n, line) :: numbered (S n) rest))
      with (b <- rewriteLine scan rank typeSet (n, line) ;;
            bs <- mapOutcome (rewriteLine scan rank typeSet)
                    (numbered (S n) rest) ;;
            Ret (b :: bs)).
    change (rewriteLine scan rank typeSet (n, line))
      with (if mentionsGeneric line then Ret None
            else line' <- subTypeSet scan (visit (rank n) typeSet) line ;;
                 Ret (Some line')).
    destruct (mentionsGeneric line).
    + simpl bind. rewrite IH.
      destruct (mapOutcome (rewriteLine scan rank typeSet) (numbered (S n) rest))
        as [ls|]; [|reflexivity].
      simpl. destruct ls as [|[x|] ls]; reflexivity.
    + destruct (subTypeSet scan (visit (rank n) typeSet) line) as [line'|];
        [|reflexivity].
      simpl bind. destruct (HasPrefix line' "//") eqn:Hcomment.
      * rewrite IH.
        destruct (mapOutcome (rewriteLine scan rank typeSet) (numbered (S n) rest))
          as [ls|]; [|reflexivity].
        simpl bind. cbv zeta. f_equal.
        assert (Hne : String.eqb line' "" = false).
        { destruct line'; [discriminate Hcomment | reflexivity]. }
        rewrite Hne. simpl emitted. rewrite Hcomment.
        destruct (String.eqb comment ""); simpl negb; cbv iota.
        -- destruct ls as [|[x|] ls]; reflexivity.
        -- destruct ls as [|[x|] ls]; simpl app; simpl map;
             rewrite ?Join_cons, ?app_assoc_s; reflexivity.
      * rewrite IH.
        destruct (mapOutcome (rewriteLine scan rank typeSet) (numbered (S n) rest))
          as [ls|]; [|reflexivity].
        simpl bind. cbv zeta. f_equal.
        simpl emitted. rewrite Hcomment.
        assert (Hnil : forall e : list string,
                  ((match ls with
                    | Some _ :: _ => @nil string
                    | _ => []
                    end) ++ e)%list = e).
        { intros e. destruct ls as [|[x|] ls']; reflexivity. }
        rewrite Hnil.
        destruct (String.eqb comment ""); simpl negb; cbv iota; simpl app;
          simpl map; rewrite ?Join_cons, ?app_assoc_s; reflexivity.
Qed.

(** X10. The generator's loop with its one pending comment is a
    two-pass function of the lines the line reader delivers: each line
    that mentions [generic.Type] or [generic.Number] is dropped and
    every other line rewritten for the keys of the set, in the visiting
    order of its own loop over the set; then a rewritten [//] comment
    line is written exactly when a further line follows it that is not
    dropped, and every other rewritten line is written, each with one
    terminator.  A panic of a substitution is a panic of the run. *)
Theorem generateSpecific_two_pass (filename src : string) (file : File)
  (typeSet : TypeSet) :
  ParseFile filename src = inr file ->
  missingInDecls (Decls file) typeSet = None ->
  generateSpecific scan ParseFile rank filename src typeSet
  = (ls <- mapOutcome (rewriteLine scan rank typeSet)
             (numbered 0 (scanLines src)) ;;
     Ret (Bytes (Join (map makeLine (emitted ls)) ""))).
Proof.
  intros Hparse Hcover. unfold generateSpecific. rewrite Hparse, Hcover.
  rewrite generateLines_two_pass.
  destruct (mapOutcome (rewriteLine scan rank typeSet)
              (numbered 0 (scanLines src))) as [ls|];
    [|reflexivity].
  simpl. destruct ls as [|[x|] ls]; reflexivity.
Qed.

End Lines.

Lemma generateSpecific_two_pass_witness :
  let src := "package p" ++ LF
             ++ "// KeyType is the key" ++ LF
             ++ "type KeyType generic.Type" ++ LF
             ++ "// f looks up" ++ LF
             ++ "func f(k KeyType)" ++ LF
             ++ "// the end" ++ LF in
  let file := {| Decls := [GenDecl [placeholderDecl "KeyType" "Type"]] |} in
  let typeSet := [("KeyType", "int")] in
  mapOutcome (rewriteLine (scanWith unscanned) listed typeSet)
    (numbered 0 (scanLines src))
  = Ret [ Some "package p";
          Some "// int is the key  ";
          None;
          Some "// f looks up";
          Some "func f ( k int ) ; ";
          Some "// the end" ]
  /\ generateSpecific (scanWith unscanned) (parsesTo file) listed "t.go" src typeSet
     = Ret (Bytes ("package p" ++ LF
                   ++ "// f looks up" ++ LF
                   ++ "func f ( k int ) ; " ++ LF)).
Proof.
  cbv zeta. split; [vm_compute; reflexivity|].
  rewrite (generateSpecific_two_pass (scanWith unscanned) (parsesTo _) listed
             "t.go" _ {| Decls := [GenDecl [placeholderDecl "KeyType" "Type"]] |}
             [("KeyType", "int")] eq_refl eq_refl).
  vm_compute. reflexivity.
Defined.

(** ** The merger on ordinary lines *)

Lemma cleanStep_ordinary (found : bool) (line : string) :
  ordinary line = true ->
  cleanStep (found, false) line
  = if HasPrefix line packageKeyword
    then ((true, false), if found then None else Some (makeLine line))
    else ((found, false), Some (makeLine line)).
Proof.
  unfold ordinary, cleanStep, keepLine. intros H.
  apply andb_true_iff in H. destruct H as [Him Hw].
  apply negb_true_iff in Him. apply negb_true_iff in Hw.
  rewrite Him, Hw.
  destruct (HasPrefix line packageKeyword); [destruct found|]; reflexivity.
Qed.

Lemma cleanLoop_ordinary_found (lines : list string) :
  forallb ordinary lines = true ->
  cleanLoop (true, false) lines
  = map makeLine (filter (fun l => negb (HasPrefix l packageKeyword)) lines).
Proof.
  induction lines as [|line rest IH]; intros H; [reflexivity|].
  simpl in H. apply andb_true_iff in H. destruct H as [Hl Hrest].
  rewrite cleanLoop_cons, (cleanStep_ordinary true line Hl). simpl filter.
  destruct (HasPrefix line packageKeyword); simpl; rewrite (IH Hrest); reflexivity.
Qed.

Lemma cleanLoop_ordinary_before (pre rest : list string) :
  forallb ordinary pre = true -> countPrefix packageKeyword pre = 0 ->
  cleanLoop (false, false) (pre ++ rest)
  = (map makeLine pre ++ cleanLoop (false, false) rest)%list.
Proof.
  induction pre as [|line pre IH]; intros H Hpk; [reflexivity|].
  simpl in H. apply andb_true_iff in H. destruct H as [Hl Hpre].
  apply countPrefix_zero_cons in Hpk. destruct Hpk as [Hpk Hpk'].
  change ((line :: pre) ++ rest)%list with (line :: (pre ++ rest))%list.
  rewrite cleanLoop_cons, (cleanStep_ordinary false line Hl), Hpk.
  rewrite (IH Hpre Hpk'). reflexivity.
Qed.

(** X11. The clean-up works on the lines its scanner delivers, which
    are the lines of the text up to the first one of 65536 bytes or
    more.  When none of them is an import line or a directive line, the
    clean-up removes the package lines after the first one and nothing
    else: every other delivered line is kept, in order, with its
    terminator normalised. *)
Theorem cleanOutputLines_ordinary (total : string)
  (pre post : list string) (l : string) :
  scanLines total = (pre ++ l :: post)%list ->
  forallb ordinary (pre ++ l :: post) = true ->
  countPrefix packageKeyword pre = 0 ->
  HasPrefix l packageKeyword = true ->
  cleanOutputLines total
  = map makeLine
      (pre ++ l :: filter (fun x => negb (HasPrefix x packageKeyword)) post).
Proof.
  intros Hlines Hord Hpre Hl. unfold cleanOutputLines. rewrite Hlines.
  rewrite forallb_app in Hord. apply andb_true_iff in Hord.
  destruct Hord as [Hopre Hrest]. simpl in Hrest.
  apply andb_true_iff in Hrest. destruct Hrest as [Hol Hopost].
  rewrite (cleanLoop_ordinary_before pre (l :: post) Hopre Hpre).
  rewrite cleanLoop_cons, (cleanStep_ordinary false l Hol), Hl.
  rewrite (cleanLoop_ordinary_found post Hopost), map_app. reflexivity.
Qed.

Lemma cleanOutputLines_ordinary_witness :
  cleanOutputLines (header ++ "package p" ++ LF ++ "var x int" ++ LF
                    ++ "package p" ++ LF ++ "var y int" ++ LF)
  = map makeLine
      (scanLines header
       ++ "package p"
          :: filter (fun x => negb (HasPrefix x packageKeyword))
               ["var x int"; "package p"; "var y int"]).
Proof.
  apply (cleanOutputLines_ordinary _ (scanLines header)
           ["var x int"; "package p"; "var y int"] "package p");
    reflexivity.
Defined.

(** ** The renamer: when it panics, when it changes nothing *)

Lemma first_with_prefix (p : string) (lines : list string) :
  countPrefix p lines = 0
  \/ exists pre l post,
       lines = (pre ++ l :: post)%list
       /\ countPrefix p pre = 0 /\ HasPrefix l p = true.
Proof.
  induction lines as [|line rest IH]; [left; reflexivity|].
  destruct (HasPrefix line p) eqn:Hl.
  - right. exists [], line, rest. repeat split. exact Hl.
  - destruct IH as [H|(pre & l & post & -> & Hpre & Hlp)].
    + left. rewrite countPrefix_cons, Hl. exact H.
    + right. exists (line :: pre), l, post. split; [reflexivity|].
      split; [|exact Hlp]. rewrite countPrefix_cons, Hl. exact Hpre.
Qed.

Lemma splitAt_nonempty (s : string) :
  forall cur, exists p rest, splitAt " " s cur = p :: rest.
Proof.
  induction s as [|c s IH]; intros cur; simpl.
  - exists cur, []. reflexivity.
  - destruct (Ascii.eqb c " ").
    + exists cur, (splitAt " " s ""). reflexivity.
    + apply IH.
Qed.

Lemma splitAt_two (s : string) :
  Contains s " " = true ->
  forall cur, exists p0 p1 more, splitAt " " s cur = p0 :: p1 :: more.
Proof.
  induction s as [|c s IH]; intros H cur; [discriminate H|].
  rewrite Contains_cons, HasPrefix_cons, HasPrefix_empty, andb_true_r in H.
  simpl. rewrite Ascii.eqb_sym.
  destruct (Ascii.eqb " " c).
  - destruct (splitAt_nonempty s "") as (p & rest & ->).
    exists cur, p, rest. reflexivity.
  - apply IH. exact H.
Qed.

Lemma changePackageLoop_first (pre post more : list string) (l p0 p1 pkgName : string) :
  countPrefix "package" pre = 0 ->
  HasPrefix l "package" = true ->
  Split l " " = p0 :: p1 :: more ->
  changePackageLoop (pre ++ l :: post) pkgName false ""
  = Ret (Join (map Sprintln (pre ++ Join (p0 :: pkgName :: more) " " :: post)) "").
Proof.
  intros Hpre Hl Hsplit.
  rewrite changePackageLoop_before by exact Hpre.
  simpl changePackageLoop. rewrite Hl, Hsplit. simpl negb. cbv iota.
  change (true && true) with true. cbv iota.
  rewrite changePackageLoop_done, map_app, Join_app.
  simpl map. rewrite Join_cons, app_assoc_s. reflexivity.
Qed.

(** X12. [changePackage] panics exactly when, among the lines its
    scanner delivers (the lines of the input up to the first one of
    65536 bytes or more), there is a line that starts with [package]
    and the first such line has no space in it; on every other input it
    returns. *)
Theorem changePackage_panics_iff (r pkgName : string) :
  changePackage r pkgName = Panic
  <-> exists pre l post,
        scanLines r = (pre ++ l :: post)%list
        /\ countPrefix "package" pre = 0
        /\ HasPrefix l "package" = true
        /\ Contains l " " = false.
Proof.
  unfold changePackage. split.
  - intros Hpanic.
    destruct (first_with_prefix "package" (scanLines r))
      as [Hnone|(pre & l & post & Hlines & Hpre & Hl)].
    + rewrite <- (app_nil_r (scanLines r)) in Hpanic.
      rewrite changePackageLoop_before in Hpanic by exact Hnone.
      discriminate Hpanic.
    + exists pre, l, post. repeat split; try assumption.
      destruct (Contains l " ") eqn:Hsp; [|reflexivity].
      destruct (splitAt_two l Hsp "") as (p0 & p1 & more & Hsplit).
      rewrite Hlines in Hpanic.
      rewrite (changePackageLoop_first pre post more l p0 p1 pkgName Hpre Hl Hsplit)
        in Hpanic.
      discriminate Hpanic.
  - intros (pre & l & post & Hlines & Hpre & Hl & Hsp). rewrite Hlines.
    rewrite changePackageLoop_before by exact Hpre.
    simpl changePackageLoop. rewrite Hl. unfold Split.
    rewrite (splitAt_none l Hsp). reflexivity.
Qed.

Lemma Join_more (p sep : string) (q : string) (rest : list string) :
  Join (p :: q :: rest) sep = p ++ sep ++ Join (q :: rest) sep.
Proof. reflexivity. Qed.

(** Joining the parts of a split with the separator gives the line. *)
Lemma Join_splitAt (s : string) :
  forall cur, Join (splitAt " " s cur) " " = cur ++ s.
Proof.
  induction s as [|c s IH]; intros cur.
  - simpl. rewrite app_empty_r. reflexivity.
  - simpl splitAt. destruct (Ascii.eqb_spec c " ") as [->|Hne].
    + destruct (splitAt_nonempty s "") as (p & rest & Hs).
      pose proof (IH "") as Hj. rewrite Hs in *.
      rewrite Join_more, Hj. reflexivity.
    + rewrite IH, app_assoc_s. reflexivity.
Qed.

(** After a first line of 65536 bytes or more the renamer reads
    nothing: it returns the empty text, also when a package line
    without a space follows. *)
Lemma changePackage_too_long (u rest pkgName : string) :
  noLF u -> fits u = false ->
  changePackage (u ++ LF ++ rest) pkgName = Ret "".
Proof.
  intros Hu Hf. unfold changePackage.
  rewrite (scanLines_too_long u rest Hu Hf). reflexivity.
Qed.

(** X13. Renaming the package to the name its clause already has, and
    renaming when no line starts with [package], give back the cleaned
    text byte for byte. *)
Theorem changePackage_unchanged (total pkgName : string) :
  (countPrefix "package" (scanLines (cleanOutput total)) = 0
   \/ exists pre l post p0 more,
        scanLines (cleanOutput total) = (pre ++ l :: post)%list
        /\ countPrefix "package" pre = 0
        /\ HasPrefix l "package" = true
        /\ Split l " " = p0 :: pkgName :: more) ->
  changePackage (cleanOutput total) pkgName = Ret (cleanOutput total).
Proof.
  intros [Hnone|(pre & l & post & p0 & more & Hlines & Hpre & Hl & Hsplit)].
  - rewrite changePackage_no_package by exact Hnone.
    rewrite cleanOutput_relined. reflexivity.
  - unfold changePackage. rewrite Hlines.
    rewrite (changePackageLoop_first pre post more l p0 pkgName pkgName Hpre Hl Hsplit).
    rewrite <- Hsplit. unfold Split. rewrite Join_splitAt. simpl append.
    rewrite <- Hlines, cleanOutput_relined. reflexivity.
Qed.

Lemma changePackage_unchanged_witness :
  changePackage (cleanOutput (header ++ "package list // generated" ++ LF
                              ++ "var x int" ++ LF)) "list"
  = Ret (cleanOutput (header ++ "package list // generated" ++ LF
                      ++ "var x int" ++ LF)).
Proof.
  apply changePackage_unchanged. right.
  exists (scanLines header), "package list // generated", ["var x int"],
    "package", ["//"; "generated"].
  repeat split.
Defined.

(** ** When the generator returns *)

Section Returns.

Variable scan : string -> list (Token * string).
Variable ParseFile : string -> string -> string + File.
Variable Process : string -> string -> string + string.

Lemma subIntoLiteral_returns (w P R : string) :
  wordify R false <> Ret "" -> exists s, subIntoLiteral w P R = Ret s.
Proof.
  intros H. destruct (subIntoLiteral w P R) as [s|] eqn:Hs.
  - exists s. reflexivity.
  - apply subIntoLiteral_panic_cases in Hs. destruct Hs as (_ & _ & Hs).
    contradiction.
Qed.

Lemma subTypeIntoWords_returns (P R : string) (ws : list string) :
  wordify R false <> Ret "" ->
  forall subbed, exists s, subTypeIntoWords ws P R subbed = Ret s.
Proof.
  intros H. induction ws as [|w ws IH]; intros subbed; simpl.
  - exists subbed. reflexivity.
  - destruct (subIntoLiteral_returns w P R H) as [w' ->]. simpl. apply IH.
Qed.

Lemma subTypeIntoTokens_returns (P R : string) (toks : list (Token * string)) :
  wordify R false <> Ret "" ->
  forall output, exists s, subTypeIntoTokens toks P R output = Ret s.
Proof.
  intros H. induction toks as [|[tok lit] toks IH]; intros output.
  - exists output. reflexivity.
  - destruct tok; simpl;
      try apply IH;
      try (destruct (subIntoLiteral_returns lit P R H) as [w' ->]; simpl; apply IH).
    unfold subTypeIntoComment.
    destruct (subTypeIntoWords_returns P R (Fields lit) H "") as [s' ->].
    simpl. apply IH.
Qed.

Lemma subTypeSet_returns (typeSet : TypeSet) :
  Forall (fun entry => wordify (snd entry) false <> Ret "") typeSet ->
  forall line, exists s, subTypeSet scan typeSet line = Ret s.
Proof.
  induction 1 as [|[t sp] rest Hsp _ IH]; intros line; simpl.
  - exists line. reflexivity.
  - destruct (Contains line t); [|apply IH].
    unfold subTypeIntoLine.
    destruct (subTypeIntoTokens_returns t sp (scan line) Hsp "") as [s ->].
    simpl. apply IH.
Qed.

Lemma generateLines_returns (rank : nat -> string -> nat) (typeSet : TypeSet)
  (lines : list string) :
  Forall (fun entry => wordify (snd entry) false <> Ret "") typeSet ->
  forall n comment buf,
    exists s, generateLines scan rank lines typeSet n comment buf = Ret s.
Proof.
  intros H. induction lines as [|line rest IH]; intros n comment buf; simpl.
  - exists buf. reflexivity.
  - destruct (mentionsGeneric line); [apply IH|].
    assert (Hv : Forall (fun entry => wordify (snd entry) false <> Ret "")
                   (visit (rank n) typeSet)).
    { apply (Permutation_Forall (visit_perm (rank n) typeSet)). exact H. }
    destruct (subTypeSet_returns (visit (rank n) typeSet) Hv line) as [line' ->].
    simpl. destruct (HasPrefix line' "//"); apply IH.
Qed.

Lemma generateSpecific_total (rank : nat -> string -> nat)
  (filename src : string) (typeSet : TypeSet) :
  Forall (fun entry => wordify (snd entry) false <> Ret "") typeSet ->
  exists r, generateSpecific scan ParseFile rank filename src typeSet = Ret r.
Proof.
  intros H. unfold generateSpecific.
  destruct (ParseFile filename src) as [err|file]; [eexists; reflexivity|].
  destruct (missingInDecls (Decls file) typeSet); [eexists; reflexivity|].
  destruct (generateLines_returns rank typeSet (scanLines src) H 0 "" "")
    as [buf ->].
  eexists. reflexivity.
Qed.

Lemma generateAll_total (ranks : nat -> nat -> string -> nat)
  (filename src : string) (typeSets : list TypeSet) :
  Forall (Forall (fun entry => wordify (snd entry) false <> Ret "")) typeSets ->
  forall i totalOutput,
    exists r,
      generateAll scan ParseFile ranks filename src typeSets i totalOutput = Ret r.
Proof.
  induction 1 as [|typeSet rest H _ IH]; intros i totalOutput; simpl.
  - eexists. reflexivity.
  - destruct (generateSpecific_total (ranks i) filename src typeSet H)
      as [[b|err] ->]; simpl.
    + apply IH.
    + eexists. reflexivity.
Qed.

(** X14. When every replacement of the substitution set wordifies to a
    non-empty fragment, [generateSpecific] returns for every template,
    every scanner and every visiting order of the set: bytes or an
    error, never a panic. *)
Theorem generateSpecific_returns (rank : nat -> string -> nat)
  (filename src : string) (typeSet : TypeSet) :
  Forall (fun entry => wordify (snd entry) false <> Ret "") typeSet ->
  exists r, generateSpecific scan ParseFile rank filename src typeSet = Ret r.
Proof.
  intros H. unfold generateSpecific.
  destruct (ParseFile filename src) as [err|file]; [eexists; reflexivity|].
  destruct (missingInDecls (Decls file) typeSet); [eexists; reflexivity|].
  destruct (generateLines_returns rank typeSet (scanLines src) H 0 "" "")
    as [buf ->].
  eexists. reflexivity.
Qed.

(** X15. When every replacement of every set wordifies to a non-empty
    fragment, the only panic left in [Generics] is the renamer's: a
    run that panics was given a package name, every set generated its
    output, and [changePackage] panicked on the cleaned text. *)
Theorem Generics_panics_in_renamer (ranks : nat -> nat -> string -> nat)
  (filename outputFilename pkgName src : string) (typeSets : list TypeSet) :
  Forall (Forall (fun entry => wordify (snd entry) false <> Ret "")) typeSets ->
  Generics scan ParseFile Process ranks filename outputFilename pkgName src typeSets
  = Panic ->
  pkgName <> ""
  /\ exists output,
       merged scan ParseFile ranks filename src typeSets = Ret (Bytes output)
       /\ changePackage output pkgName = Panic.
Proof.
  intros H. unfold Generics, merged.
  destruct (generateAll_total ranks filename src typeSets H 0 header)
    as [[total|err] ->];
    simpl; [|discriminate].
  destruct (String.eqb_spec pkgName "") as [->|Hne]; simpl.
  - destruct (Process outputFilename (cleanOutput total)); discriminate.
  - destruct (changePackage (cleanOutput total) pkgName) as [out|] eqn:Hcp; simpl.
    + destruct (Process outputFilename out); discriminate.
    + intros _. split; [exact Hne|]. exists (cleanOutput total).
      split; [reflexivity | exact Hcp].
Qed.

End Returns.

Lemma generateSpecific_returns_witness :
  exists r,
    generateSpecific (scanWith unscanned) (parsesTo {| Decls := [] |}) listed "t.go"
      ("package p" ++ LF ++ "var x KeyTypeList" ++ LF) [("KeyType", "*pkg.T{}")]
    = Ret r.
Proof.
  apply generateSpecific_returns.
  constructor; [|constructor]. discriminate.
Defined.

Lemma Generics_panics_in_renamer_witness :
  "main" <> ""
  /\ exists output,
       merged (scanWith unscanned) (parsesTo {| Decls := [] |}) (fun _ => listed)
         "t.go" ("package" ++ byte "009" ++ "p" ++ LF) [[("KeyType", "int")]]
       = Ret (Bytes output)
       /\ changePackage output "main" = Panic.
Proof.
  apply (Generics_panics_in_renamer (scanWith unscanned)
           (parsesTo {| Decls := [] |}) processId (fun _ => listed)
           "t.go" "out.go" "main"
           ("package" ++ byte "009" ++ "p" ++ LF) [[("KeyType", "int")]]).
  - constructor; [|constructor]. constructor; [|constructor]. discriminate.
  - vm_compute. reflexivity.
Defined.

(** ** The coverage check as a whole *)

Lemma missingInSpecs_declared (typeSet : TypeSet) (specs : list Spec) (Q : string) :
  missingInSpecs specs typeSet = Some Q ->
  exists member, In (placeholderDecl Q member) specs.
Proof.
  induction specs as [|spec rest IH]; [discriminate|].
  assert (Hrest : missingInSpecs rest typeSet = Some Q ->
                  exists member, In (placeholderDecl Q member) (spec :: rest)).
  { intros H. destruct (IH H) as [member Hin]. exists member. right. exact Hin. }
  destruct spec as [name [x|[x|X0 sel0|] sel|]|]; simpl; try exact Hrest.
  destruct (String.eqb_spec x genericPackage) as [->|]; simpl; [|exact Hrest].
  destruct (hasKey typeSet name); simpl; [exact Hrest|].
  intros H. injection H as <-. exists sel. left. reflexivity.
Qed.

Lemma missingInDecls_declared (typeSet : TypeSet) (decls : list Decl) (Q : string) :
  missingInDecls decls typeSet = Some Q ->
  exists specs member,
    In (GenDecl specs) decls /\ In (placeholderDecl Q member) specs.
Proof.
  induction decls as [|decl rest IH]; [discriminate|].
  assert (Hrest : missingInDecls rest typeSet = Some Q ->
                  exists specs member,
                    In (GenDecl specs) (decl :: rest)
                    /\ In (placeholderDecl Q member) specs).
  { intros H. destruct (IH H) as (specs & member & Hd & Hs).
    exists specs, member. split; [right; exact Hd | exact Hs]. }
  destruct decl as [specs|]; simpl; [|exact Hrest].
  destruct (missingInSpecs specs typeSet) as [name|] eqn:Hs; [|exact Hrest].
  intros H. injection H as <-.
  destruct (missingInSpecs_declared _ _ _ Hs) as [member Hin].
  exists specs, member. split; [left; reflexivity | exact Hin].
Qed.

(** X16. The coverage check passes exactly when every type
    specification on a member of the [generic] package, in any general
    declaration of the file, declares a name that is a key of the
    substitution set; keys that no declaration uses do no harm. When it
    fails, the name it reports is declared that way and is no key. *)
Theorem coverage_check_iff (typeSet : TypeSet) (decls : list Decl) :
  (missingInDecls decls typeSet = None
   <-> forall specs P member,
         In (GenDecl specs) decls -> In (placeholderDecl P member) specs ->
         hasKey typeSet P = true)
  /\ (forall Q,
        missingInDecls decls typeSet = Some Q ->
        hasKey typeSet Q = false
        /\ exists specs member,
             In (GenDecl specs) decls /\ In (placeholderDecl Q member) specs).
Proof.
  split; [split|].
  - intros Hnone specs P member Hd Hs.
    destruct (hasKey typeSet P) eqn:HP; [reflexivity|].
    destruct (missingInDecls_complete typeSet decls specs P member Hd Hs HP)
      as [Q HQ].
    rewrite HQ in Hnone. discriminate Hnone.
  - intros Hall. destruct (missingInDecls decls typeSet) as [Q|] eqn:HQ;
      [|reflexivity].
    destruct (missingInDecls_declared _ _ _ HQ) as (specs & member & Hd & Hs).
    specialize (Hall specs Q member Hd Hs).
    rewrite (missingInDecls_sound _ _ _ HQ) in Hall. discriminate Hall.
  - intros Q HQ. split; [exact (missingInDecls_sound _ _ _ HQ)|].
    exact (missingInDecls_declared _ _ _ HQ).
Qed.

(** ** An import block that is not closed *)

Lemma cleanLoop_inside (found : bool) (lines : list string) :
  forallb (fun x => negb (HasSuffix x closeBrace)) lines = true ->
  cleanLoop (found, true) lines = [].
Proof.
  induction lines as [|line rest IH]; intros H; [reflexivity|].
  simpl in H. apply andb_true_iff in H. destruct H as [Hl Hrest].
  apply negb_true_iff in Hl.
  rewrite cleanLoop_cons. unfold cleanStep. rewrite Hl. exact (IH Hrest).
Qed.

Lemma cleanLoop_app_no_import (pre : list string) :
  countPrefix importKeyword pre = 0 ->
  forall found, exists found',
    forall rest,
      cleanLoop (found, false) (pre ++ rest)
      = (cleanLoop (found, false) pre ++ cleanLoop (found', false) rest)%list.
Proof.
  induction pre as [|line pre IH]; intros Him found.
  - exists found. reflexivity.
  - apply countPrefix_zero_cons in Him. destruct Him as [Hl Hpre].
    assert (Hstep : exists found1 kept,
              cleanStep (found, false) line = ((found1, false), kept)).
    { unfold cleanStep. rewrite Hl.
      destruct (HasPrefix line packageKeyword); [destruct found|];
        eexists; eexists; reflexivity. }
    destruct Hstep as (found1 & kept & Hstep).
    destruct (IH Hpre found1) as [found' Hrest].
    exists found'. intros rest.
    change ((line :: pre) ++ rest)%list with (line :: (pre ++ rest))%list.
    rewrite !cleanLoop_cons, Hstep, Hrest.
    destruct kept; reflexivity.
Qed.

(** X17. An import block that is opened and never closed takes the
    rest of the text with it: when no line after the opening line ends
    with a closing parenthesis, the clean-up keeps nothing from the
    opening line on, later instantiations included. *)
Theorem unclosed_import_block (total : string)
  (pre post : list string) (l : string) :
  scanLines total = (pre ++ l :: post)%list ->
  countPrefix importKeyword pre = 0 ->
  HasPrefix l importKeyword = true ->
  HasSuffix l openBrace = true ->
  forallb (fun x => negb (HasSuffix x closeBrace)) post = true ->
  cleanOutputLines total = cleanLoop (false, false) pre.
Proof.
  intros Hlines Hpre Hl Hopen Hpost. unfold cleanOutputLines. rewrite Hlines.
  destruct (cleanLoop_app_no_import pre Hpre false) as [found' ->].
  rewrite cleanLoop_cons. unfold cleanStep.
  rewrite Hl, Hopen.
  destruct (HasPrefix l packageKeyword) eqn:Hpk.
  - apply package_not_import in Hpk. rewrite Hpk in Hl. discriminate Hl.
  - rewrite (cleanLoop_inside found' post Hpost), app_nil_r. reflexivity.
Qed.

Lemma unclosed_import_block_witness :
  cleanOutputLines ("package p" ++ LF ++ "import (" ++ LF
                    ++ byte "009" ++ "fmt" ++ LF ++ ") // end" ++ LF
                    ++ "var x int" ++ LF ++ "package p" ++ LF)
  = cleanLoop (false, false) ["package p"].
Proof.
  apply (unclosed_import_block _ ["package p"]
           [byte "009" ++ "fmt"; ") // end"; "var x int"; "package p"]
           "import ("); reflexivity.
Defined.

(** ** Cleaning twice *)

Lemma countPrefix_app (p : string) (a b : list string) :
  countPrefix p (a ++ b) = countPrefix p a + countPrefix p b.
Proof.
  induction a as [|x a IH]; [reflexivity|].
  change ((x :: a) ++ b)%list with (x :: (a ++ b))%list.
  rewrite !countPrefix_cons, IH. lia.
Qed.

Lemma filter_no_package (lines : list string) :
  countPrefix packageKeyword lines = 0 ->
  filter (fun x => negb (HasPrefix x packageKeyword)) lines = lines.
Proof.
  induction lines as [|line rest IH]; intros H; [reflexivity|].
  apply countPrefix_zero_cons in H. destruct H as [Hl Hrest].
  simpl. rewrite Hl. simpl. rewrite (IH Hrest). reflexivity.
Qed.

Lemma ordinary_of_counts (lines : list string) :
  countPrefix importKeyword lines = 0 ->
  countPrefix "//go:generate genny " lines = 0 ->
  forallb ordinary lines = true.
Proof.
  induction lines as [|line rest IH]; intros Him Hdir; [reflexivity|].
  apply countPrefix_zero_cons in Him. destruct Him as [Hi Him].
  apply countPrefix_zero_cons in Hdir. destruct Hdir as [Hd Hdir].
  simpl. rewrite (IH Him Hdir), andb_true_r.
  unfold ordinary, unwantedLinePrefixes. simpl existsb.
  rewrite Hi, Hd. reflexivity.
Qed.

Lemma cleanLoop_fixed (lines : list string) :
  forallb ordinary lines = true ->
  countPrefix packageKeyword lines <= 1 ->
  cleanLoop (false, false) lines = map makeLine lines.
Proof.
  intros Hord Hle.
  destruct (first_with_prefix packageKeyword lines)
    as [Hnone|(pre & l & post & -> & Hpre & Hl)].
  - rewrite <- (app_nil_r lines) at 1.
    rewrite (cleanLoop_ordinary_before lines [] Hord Hnone).
    simpl. apply app_nil_r.
  - rewrite forallb_app in Hord. apply andb_true_iff in Hord.
    destruct Hord as [Hopre Hrest]. simpl in Hrest.
    apply andb_true_iff in Hrest. destruct Hrest as [Hol Hopost].
    rewrite countPrefix_app, countPrefix_cons, Hl in Hle.
    assert (Hpost : countPrefix packageKeyword post = 0) by lia.
    rewrite (cleanLoop_ordinary_before pre (l :: post) Hopre Hpre).
    rewrite cleanLoop_cons, (cleanStep_ordinary false l Hol), Hl.
    rewrite (cleanLoop_ordinary_found post Hopost), (filter_no_package post Hpost).
    rewrite map_app. reflexivity.
Qed.

(** X18. Cleaning is idempotent: the cleaned text is a fixed point of
    the clean-up. *)
Theorem cleanOutput_idempotent (total : string) :
  cleanOutput (cleanOutput total) = cleanOutput total.
Proof.
  assert (Hfix : cleanLoop (false, false) (scanLines (cleanOutput total))
                 = map makeLine (scanLines (cleanOutput total))).
  { apply cleanLoop_fixed.
    - apply ordinary_of_counts.
      + rewrite countPrefix_cleanOutput by reflexivity. apply cleanLoop_no_import.
      + rewrite countPrefix_cleanOutput by reflexivity.
        apply cleanLoop_no_directive.
    - rewrite countPrefix_cleanOutput by reflexivity. apply cleanLoop_at_most_one. }
  unfold cleanOutput at 1. unfold cleanOutputLines. rewrite Hfix.
  unfold cleanOutput, cleanOutputLines.
  destruct (cleanLoop_shape (scanLines total)
              (scanLines_scanned total) (false, false)) as (ts & -> & Hts).
  rewrite scanLines_Join by exact Hts. rewrite map_map.
  f_equal. apply map_ext. intros t. unfold makeLine.
  rewrite TrimRight_idem. reflexivity.
Qed.
